(** * Oldland CPU simulator: a shallow embedding of [sim/main.c] and
      [debugger/protocol.h], and the properties of the instruction-set
      simulator proved over it.

    Integers of the C program are modelled as [Z] with the wrap-around of
    each C type written out ([u32], [s32]).  The register file is a list
    indexed with stdpp's lookup and insert.  The code threads one [struct
    cpu] through every call and may abort the process at many points
    ([die], [assert]); this is a small state-and-error monad [sim] that also
    collects the calls the simulator makes to its collaborators (the Lua
    test script, the memory map's write path, standard output).

    Three things the C file uses are not part of it and are interfaces
    here: the memory map ([internal.h]), the Lua interpreter (liblua) and
    the value the compiled program yields for a shift whose count is not
    smaller than the width of the operand (undefined in ISO C). *)

From Stdlib Require Import ZArith Lia Bool.
From stdpp Require Import base list strings gmap.

Local Open Scope Z_scope.

(** ** Fixed-width integers *)

(** Conversion to [uint32_t]. *)
Definition u32 (x : Z) : Z := x mod 2 ^ 32.

(** Conversion to [int32_t] (two's complement, as every supported compiler
    implements it). *)
Definition s32 (x : Z) : Z :=
  let y := u32 x in if y <? 2 ^ 31 then y else y - 2 ^ 32.

(** The value an integer denotes after sign extension from its low [bits]
    bits; this is the meaning of "sign-extended" in the specification and is
    not how the C code computes it (see [emul_branch], [ldr_str_addr]). *)
Definition sign_extend (bits x : Z) : Z :=
  let y := x mod 2 ^ bits in if y <? 2 ^ (bits - 1) then y else y - 2 ^ bits.

Arguments u32 : simpl never.
Arguments s32 : simpl never.
Arguments sign_extend : simpl never.

(** ** Enumerations of [sim/main.c] *)

Definition SIM_SUCCESS : Z := 0xffffffff.
Definition SIM_FAIL : Z := 0xfffffffe.
Definition SIM_CONTINUE : Z := 0x00000000.

Definition INSTR_ARITHMETIC : Z := 0.
Definition INSTR_BRANCH : Z := 1.
Definition INSTR_LDR_STR : Z := 2.

Definition ARITH_ADD : Z := 0x0.
Definition ARITH_ADDC : Z := 0x1.
Definition ARITH_SUB : Z := 0x2.
Definition ARITH_SUBC : Z := 0x3.
Definition ARITH_LSL : Z := 0x4.
Definition ARITH_LSR : Z := 0x5.
Definition ARITH_AND : Z := 0x6.
Definition ARITH_XOR : Z := 0x7.
Definition ARITH_BIC : Z := 0x8.
Definition ARITH_OR : Z := 0x9.
Definition ARITH_MOVHI : Z := 0xa.

Definition BRANCH_CALL : Z := 0x0.
Definition BRANCH_RET : Z := 0x1.
Definition BRANCH_B : Z := 0x4.
Definition BRANCH_BNE : Z := 0x5.
Definition BRANCH_BEQ : Z := 0x6.
Definition BRANCH_BGT : Z := 0x7.

Definition LS_LDR32 : Z := 0x0.
Definition LS_LDR16 : Z := 0x1.
Definition LS_LDR8 : Z := 0x2.
Definition LS_STR32 : Z := 0x4.
Definition LS_STR16 : Z := 0x5.
Definition LS_STR8 : Z := 0x6.

Definition EXIT_SUCCESS : Z := 0.
Definition EXIT_FAILURE : Z := 1.

(** ** Instruction fields (pure accessors over the raw word) *)

Definition instr_class (instr : Z) : Z := Z.land (Z.shiftr instr 30) 0x3.
Definition arith_opc (instr : Z) : Z := Z.land (Z.shiftr instr 26) 0xf.
Definition branch_opc (instr : Z) : Z := Z.land (Z.shiftr instr 26) 0xf.
Definition ls_opc (instr : Z) : Z := Z.land (Z.shiftr instr 26) 0xf.
Definition instr_rd (instr : Z) : Z := Z.land (Z.shiftr instr 6) 0x7.
Definition instr_ra (instr : Z) : Z := Z.land (Z.shiftr instr 3) 0x7.
Definition instr_rb (instr : Z) : Z := Z.land instr 0x7.
Definition instr_imm16 (instr : Z) : Z := Z.land (Z.shiftr instr 10) 0xffff.
Definition instr_imm24 (instr : Z) : Z := Z.land instr 0xffffff.

(** [instr & (1 << n)] used as a condition. *)
Definition mode_bit (instr n : Z) : bool :=
  negb (Z.land instr (Z.shiftl 1 n) =? 0).

(** ** Interfaces of the collaborators *)

(** What the compiled simulator yields for [x << n] and [x >> n] on a 32-bit
    operand when [32 <= n].  ISO C leaves this undefined, so it is a
    parameter of the model and the general theorems hold for every choice. *)
Class ShiftTarget := {
  shl_wide : Z -> Z -> Z;
  shr_wide : Z -> Z -> Z
}.

(** The memory map of [internal.h]: [mem_map_read] returns the error code and
    the value stored through its out-parameter, [mem_map_write] the error
    code and the memory map it leaves.  A read is taken to leave the memory
    map as it is, as section 4.1 of the specification describes it. *)
Class MemMap := {
  mem_map : Type;
  mem_map_read : mem_map -> Z -> Z -> Z * Z;
  mem_map_write : mem_map -> Z -> Z -> Z -> Z * mem_map
}.

(** The Lua interpreter holding the test script.  [lua_global_isnil L name]
    is [lua_getglobal] followed by [lua_isnil (L, -1)];
    [lua_call_global L name args] is the call of that global with the
    integers pushed by [lua_pushinteger], and is [None] when the call does
    not return (the script calls [sim.err], which is [die], or raises
    outside a protected call).  The script has no binding that reaches the
    [struct cpu]. *)
Class LuaInterp := {
  lua_State : Type;
  lua_global_isnil : lua_State -> string -> bool;
  lua_call_global : lua_State -> string -> list Z -> option lua_State
}.

(** ** Observable calls and fatal exits *)

(** One line written to the trace stream, by the arguments of its format
    string. *)
Inductive trace_line : Type :=
| Tr_rule
| Tr_wr_reg (at_pc r v : Z)
| Tr_set_pc (at_pc v : Z)
| Tr_b (target : Z)
| Tr_beq (target : Z).

(** The calls the simulator makes to its collaborators, in program order. *)
Inductive event : Type :=
| Ev_lua_call (name : string) (args : list Z)
| Ev_mem_write (addr nr_bits val err : Z)
| Ev_stdout (text : string).

(** The ways the process is aborted. *)
Inductive fatal : Type :=
| Invalid_arith_opcode (opc instr : Z)
| Invalid_branch_opcode (opc instr : Z)
| Invalid_ls_opcode (opc instr : Z)
| Invalid_class (cls instr : Z)
| Read8_failed (addr : Z)
| Write8_failed (addr : Z)
| Fetch_assert
| Lua_no_return (name : string).

Reserved Notation "'let*' x := m 'in' k" (at level 10, x name, m at level 200, k at level 200).

Section Simulator.
Context `{ShiftTarget, MemMap, LuaInterp}.

Record cpu : Type := Cpu {
  pc : Z;
  next_pc : Z;
  regs : list Z;
  z : bool;
  c : bool;
  mem : mem_map;
  lua_interp : lua_State;
  trace_file : list trace_line
}.

(** The number of slots in the register file. *)
Definition reg_count (s : cpu) : nat := length (regs s).

(** [c->regs[r]]; every index of the code is masked with [0x7]. *)
Definition reg (s : cpu) (r : Z) : Z := default 0 (regs s !! Z.to_nat r).

Definition set_pc (v : Z) (s : cpu) : cpu :=
  Cpu v (next_pc s) (regs s) (z s) (c s) (mem s) (lua_interp s) (trace_file s).
Definition set_next_pc (v : Z) (s : cpu) : cpu :=
  Cpu (pc s) v (regs s) (z s) (c s) (mem s) (lua_interp s) (trace_file s).
Definition set_regs (l : list Z) (s : cpu) : cpu :=
  Cpu (pc s) (next_pc s) l (z s) (c s) (mem s) (lua_interp s) (trace_file s).
Definition set_z (b : bool) (s : cpu) : cpu :=
  Cpu (pc s) (next_pc s) (regs s) b (c s) (mem s) (lua_interp s) (trace_file s).
Definition set_mem (m : mem_map) (s : cpu) : cpu :=
  Cpu (pc s) (next_pc s) (regs s) (z s) (c s) m (lua_interp s) (trace_file s).
Definition set_lua_interp (L : lua_State) (s : cpu) : cpu :=
  Cpu (pc s) (next_pc s) (regs s) (z s) (c s) (mem s) L (trace_file s).
Definition set_trace_file (t : list trace_line) (s : cpu) : cpu :=
  Cpu (pc s) (next_pc s) (regs s) (z s) (c s) (mem s) (lua_interp s) t.

(** *** The monad of the simulator *)

Inductive outcome (A : Type) : Type :=
| Ran (a : A) (s : cpu) (evs : list event)
| Died (f : fatal) (s : cpu) (evs : list event).
Arguments Ran {A} a s evs.
Arguments Died {A} f s evs.

Definition sim (A : Type) : Type := cpu -> outcome A.

Definition ret {A} (a : A) : sim A := fun s => Ran a s [].

Definition after {A} (evs : list event) (o : outcome A) : outcome A :=
  match o with
  | Ran a s evs' => Ran a s (evs ++ evs')
  | Died f s evs' => Died f s (evs ++ evs')
  end.

Definition bind {A B} (m : sim A) (k : A -> sim B) : sim B :=
  fun s =>
    match m s with
    | Ran a s' evs => after evs (k a s')
    | Died f s' evs => Died f s' evs
    end.

Definition get : sim cpu := fun s => Ran s s [].
Definition modify (f : cpu -> cpu) : sim unit := fun s => Ran tt (f s) [].
Definition emit (e : event) : sim unit := fun s => Ran tt s [e].
Definition die {A} (f : fatal) : sim A := fun s => Died f s [].

(** The state a computation leaves, however it ends. *)
Definition final_cpu {A} (o : outcome A) : cpu :=
  match o with Ran _ s _ => s | Died _ s _ => s end.
Definition events_of {A} (o : outcome A) : list event :=
  match o with Ran _ _ evs => evs | Died _ _ evs => evs end.
Definition result_of {A} (o : outcome A) : option A :=
  match o with Ran a _ _ => Some a | Died _ _ _ => None end.

(** [frames proj m]: however [m] ends, the field [proj] of the [struct cpu]
    is what it was. *)
Definition frames {A B} (proj : cpu -> B) (m : sim A) : Prop :=
  forall s, proj (final_cpu (m s)) = proj s.

(** [emits P m]: every call [m] makes to a collaborator satisfies [P]. *)
Definition emits {A} (P : event -> Prop) (m : sim A) : Prop :=
  forall s, Forall P (events_of (m s)).

Notation "'let*' x := m 'in' k" := (bind m (fun x => k)).

(** *** Small operations of [sim/main.c] *)

(** [trace]: one more line written to the trace stream (its text is not
    modelled, nor is the buffering of the stream). *)
Definition trace (l : trace_line) : sim unit :=
  modify (fun s => set_trace_file (trace_file s ++ [l]) s).

Definition cpu_wr_reg (r v : Z) : sim unit :=
  let* s := get in
  let* _ := trace (Tr_wr_reg (pc s) r v) in
  modify (fun s => set_regs (<[Z.to_nat r := v]> (regs s)) s).

Definition cpu_set_next_pc (v : Z) : sim unit :=
  let* s := get in
  let* _ := trace (Tr_set_pc (pc s) v) in
  modify (set_next_pc v).

(** [calloc] zeroes the structure; [m] is the memory map after [ram_init]
    and [debug_uart_init] succeeded, the trace file is opened empty. *)
Definition new_cpu (m : mem_map) (L : lua_State) : cpu :=
  Cpu 0 0 (replicate 8 0) false false m L [].

(** *** Arithmetic *)

(** [x << n] and [x >> n] on a [uint32_t]. *)
Definition shl32 (x n : Z) : Z :=
  if n <? 32 then u32 (Z.shiftl x n) else u32 (shl_wide x n).
Definition shr32 (x n : Z) : Z :=
  if n <? 32 then Z.shiftr x n else u32 (shr_wide x n).

(** [op2 = (instr & (1 << 9)) ? c->regs[rb] : imm16]. *)
Definition arith_op2 (instr : Z) (s : cpu) : Z :=
  if mode_bit instr 9 then reg s (instr_rb instr) else instr_imm16 instr.

Definition emul_arithmetic (instr : Z) : sim unit :=
  let* s := get in
  let ra := instr_ra instr in
  let rd := instr_rd instr in
  let op2 := arith_op2 instr s in
  let* _ :=
    (if arith_opc instr =? ARITH_ADD then
       cpu_wr_reg rd (u32 (reg s ra + op2))
     else if arith_opc instr =? ARITH_SUB then
       cpu_wr_reg rd (u32 (reg s ra - op2))
     else if arith_opc instr =? ARITH_LSL then
       cpu_wr_reg rd (shl32 (reg s ra) op2)
     else if arith_opc instr =? ARITH_LSR then
       cpu_wr_reg rd (shr32 (reg s ra) op2)
     else if arith_opc instr =? ARITH_AND then
       cpu_wr_reg rd (Z.land (reg s ra) op2)
     else if arith_opc instr =? ARITH_XOR then
       cpu_wr_reg rd (Z.lxor (reg s ra) op2)
     else if arith_opc instr =? ARITH_BIC then
       cpu_wr_reg rd (Z.land (reg s ra) (u32 (Z.lnot (s32 (shl32 1 op2)))))
     else if arith_opc instr =? ARITH_OR then
       cpu_wr_reg rd (Z.lor (reg s ra) op2)
     else if arith_opc instr =? ARITH_MOVHI then
       cpu_wr_reg rd (u32 (Z.shiftl op2 16))
     else
       die (Invalid_arith_opcode (arith_opc instr) instr)) in
  if negb (arith_opc instr =? ARITH_MOVHI) then
    modify (fun s => set_z (reg s rd =? 0) s)
  else ret tt.

(** *** Branches *)

(** The immediate after [imm24 <<= 8; imm24 >>= 8] on an [int32_t]. *)
Definition branch_imm24 (instr : Z) : Z :=
  Z.shiftr (s32 (Z.shiftl (instr_imm24 instr) 8)) 8.

(** [target = (instr & (1 << 25)) ? rb : c->pc + (imm24 << 2)], where [rb]
    is the value of [instr_rb (instr)]. *)
Definition branch_target (instr : Z) (s : cpu) : Z :=
  if mode_bit instr 25 then instr_rb instr
  else u32 (pc s + s32 (Z.shiftl (branch_imm24 instr) 2)).

Definition emul_branch (instr : Z) : sim unit :=
  let* s := get in
  let target := branch_target instr s in
  if branch_opc instr =? BRANCH_B then
    let* _ := trace (Tr_b target) in
    cpu_set_next_pc target
  else if branch_opc instr =? BRANCH_BEQ then
    let* _ := trace (Tr_beq target) in
    if z s then cpu_set_next_pc target else ret tt
  else
    die (Invalid_branch_opcode (branch_opc instr) instr).

(** *** The Lua hooks *)

(** [lua_call] of a global function that was found not to be nil. *)
Definition lua_call (name : string) (args : list Z) : sim unit :=
  fun s =>
    match lua_call_global (lua_interp s) name args with
    | Some L' => Ran tt (set_lua_interp L' s) [Ev_lua_call name args]
    | None => Died (Lua_no_return name) s [Ev_lua_call name args]
    end.

Definition validate_result : sim unit :=
  let* s := get in
  if negb (lua_global_isnil (lua_interp s) "validate_result") then
    lua_call "validate_result" []
  else ret tt.

Definition cpu_mem_map_write (addr nr_bits val : Z) : sim Z :=
  let* s := get in
  let* _ :=
    (if negb (lua_global_isnil (lua_interp s) "data_write_hook") then
       lua_call "data_write_hook" [addr; nr_bits; val]
     else ret tt) in
  let* s := get in
  let '(err, m') := mem_map_write (mem s) addr nr_bits val in
  let* _ := emit (Ev_mem_write addr nr_bits val err) in
  let* _ := modify (set_mem m') in
  ret err.

(** *** Loads and stores *)

(** The immediate after [imm16 <<= 16; imm16 >>= 16] on an [int32_t]. *)
Definition ldr_str_imm16 (instr : Z) : Z :=
  Z.shiftr (s32 (Z.shiftl (instr_imm16 instr) 16)) 16.

(** The address computed at the head of [emul_ldr_str]. *)
Definition ldr_str_addr (instr : Z) (s : cpu) : Z :=
  if mode_bit instr 9 then u32 (pc s + ldr_str_imm16 instr)
  else u32 (reg s (instr_ra instr) + instr_imm16 instr).

Definition emul_ldr_str (instr : Z) : sim unit :=
  let* s := get in
  let addr := ldr_str_addr instr s in
  let rb := instr_rb instr in
  let rd := instr_rd instr in
  if ls_opc instr =? LS_LDR8 then
    let '(err, v) := mem_map_read (mem s) addr 8 in
    if negb (err =? 0) then die (Read8_failed addr)
    else cpu_wr_reg rd (Z.land v 0xff)
  else if ls_opc instr =? LS_STR8 then
    let v := Z.land (reg s rb) 0xff in
    let* err := cpu_mem_map_write addr 8 v in
    if negb (err =? 0) then die (Write8_failed addr) else ret tt
  else
    die (Invalid_ls_opcode (ls_opc instr) instr).

(** *** One instruction, one cycle *)

Definition emul_insn (instr : Z) : sim unit :=
  if instr_class instr =? INSTR_ARITHMETIC then emul_arithmetic instr
  else if instr_class instr =? INSTR_BRANCH then emul_branch instr
  else if instr_class instr =? INSTR_LDR_STR then emul_ldr_str instr
  else die (Invalid_class (instr_class instr) instr).

Definition cpu_cycle : sim Z :=
  let* _ := trace Tr_rule in
  let* _ := modify (fun s => set_next_pc (u32 (pc s + 4)) s) in
  let* s := get in
  let '(err, instr) := mem_map_read (mem s) (pc s) 32 in
  if negb (err =? 0) then die Fetch_assert
  else if (instr =? SIM_SUCCESS) || (instr =? SIM_FAIL) then ret instr
  else
    let* _ := emul_insn instr in
    let* _ := modify (fun s => set_pc (next_pc s) s) in
    ret SIM_CONTINUE.

(** The state in which the instruction is fetched: the rule is in the trace
    file and [next_pc] holds the address of the following word. *)
Definition fetch_state (s : cpu) : cpu :=
  set_next_pc (u32 (pc s + 4)) (set_trace_file (trace_file s ++ [Tr_rule]) s).

(** *** The driver *)

Definition nl : string := String (Ascii.ascii_of_nat 10) EmptyString.

(** [do { err = cpu_cycle (c); } while (err == 0);] with [int err].  The
    loop need not terminate: [None] is "more than [fuel] cycles". *)
Fixpoint run_cycles (fuel : nat) (s : cpu) : option (outcome Z) :=
  match fuel with
  | O => None
  | S fuel' =>
      match cpu_cycle s with
      | Ran r s' evs =>
          let err := s32 r in
          if err =? 0 then after evs <$> run_cycles fuel' s'
          else Some (Ran err s' evs)
      | Died f s' evs => Some (Died f s' evs)
      end
  end.

(** The state at the [n]-th instruction boundary, while the loop goes on. *)
Fixpoint cpu_after (n : nat) (s : cpu) : option cpu :=
  match n with
  | O => Some s
  | S n' =>
      match cpu_cycle s with
      | Ran r s' _ => if s32 r =? 0 then cpu_after n' s' else None
      | Died _ _ _ => None
      end
  end.

(** [main] from the end of the loop.  [SIM_SUCCESS] does not fit an [int], so
    the comparison [err == SIM_SUCCESS] is made on [unsigned int]. *)
Definition report (err : Z) : sim Z :=
  let success := u32 err =? SIM_SUCCESS in
  let* _ := emit (Ev_stdout ("[" ++ (if success then "SUCCESS" else "FAIL") ++ "]" ++ nl)) in
  let* _ := (if success then validate_result else ret tt) in
  ret (if success then EXIT_SUCCESS else EXIT_FAILURE).

(** [main] from [new_cpu] on: [L] is the state [init_test_script] returned. *)
Definition main (fuel : nat) (m : mem_map) (L : lua_State) : option (outcome Z) :=
  let banner := [Ev_stdout ("Oldland CPU simulator" ++ nl)] in
  match run_cycles fuel (new_cpu m L) with
  | None => None
  | Some (Ran err s evs) => Some (after (banner ++ evs) (report err s))
  | Some (Died f s evs) => Some (Died f s (banner ++ evs))
  end.

End Simulator.

Arguments Ran {_ _ A} a s evs.
Arguments Died {_ _ A} f s evs.

(** ** Enumerations of [debugger/protocol.h] *)

(** An [enum] declaration as written: each enumerator with its explicit
    value, if it has one. *)
Definition enum_decl : Type := list (string * option Z).

(** The value C gives each enumerator: the explicit one, else one more than
    the previous enumerator, else zero for the first. *)
Fixpoint enum_values_from (next : Z) (d : enum_decl) : list (string * Z) :=
  match d with
  | [] => []
  | (name, v) :: d' =>
      let x := default next v in (name, x) :: enum_values_from (x + 1) d'
  end.

Definition enum_values (d : enum_decl) : list (string * Z) :=
  enum_values_from 0 d.

Fixpoint assoc (name : string) (l : list (string * Z)) : option Z :=
  match l with
  | [] => None
  | (n, x) :: l' => if String.eqb name n then Some x else assoc name l'
  end.

Definition enum_value (d : enum_decl) (name : string) : option Z :=
  assoc name (enum_values d).

Definition dbg_cmd : enum_decl :=
  [ ("CMD_STOP", None);
    ("CMD_RUN", None);
    ("CMD_STEP", None);
    ("CMD_READ_REG", None);
    ("CMD_WRITE_REG", None);
    ("CMD_RMEM32", None);
    ("CMD_RMEM16", None);
    ("CMD_RMEM8", None);
    ("CMD_WMEM32", None);
    ("CMD_WMEM16", None);
    ("CMD_WMEM8", None);
    ("CMD_RESET", None);
    ("CMD_CACHE_SYNC", None);
    ("CMD_CPUID", None);
    ("CMD_GET_EXEC_STATUS", None);
    ("CMD_START_TRACE", Some (-2));
    ("CMD_SIM_TERM", Some (-1)) ].

Definition dbg_reg : enum_decl :=
  [ ("REG_CMD", None); ("REG_ADDRESS", None);
    ("REG_WDATA", None); ("REG_RDATA", None) ].

Definition exec_status : enum_decl :=
  [ ("EXEC_STATUS_RUNNING", Some (Z.shiftl 1 0));
    ("EXEC_STATUS_STOPPED_ON_BKPT", Some (Z.shiftl 1 1)) ].

(** The fifteen commands of the core protocol, in the order the
    specification lists them, and the two extensions of the simulator. *)
Definition core_commands : list string :=
  [ "CMD_STOP"; "CMD_RUN"; "CMD_STEP"; "CMD_READ_REG"; "CMD_WRITE_REG";
    "CMD_RMEM32"; "CMD_RMEM16"; "CMD_RMEM8"; "CMD_WMEM32"; "CMD_WMEM16";
    "CMD_WMEM8"; "CMD_RESET"; "CMD_CACHE_SYNC"; "CMD_CPUID";
    "CMD_GET_EXEC_STATUS" ].

Definition sim_only_commands : list string :=
  [ "CMD_START_TRACE"; "CMD_SIM_TERM" ].


(** ** Vocabulary of the properties *)

(** The arithmetic opcodes the instruction set names, and those of them
    [emul_arithmetic] has a case for. *)
Definition named_arith_opcodes : list Z :=
  [ ARITH_ADD; ARITH_ADDC; ARITH_SUB; ARITH_SUBC; ARITH_LSL; ARITH_LSR;
    ARITH_AND; ARITH_XOR; ARITH_BIC; ARITH_OR; ARITH_MOVHI ].

Definition emulated_arith_opcodes : list Z :=
  [ ARITH_ADD; ARITH_SUB; ARITH_LSL; ARITH_LSR; ARITH_AND; ARITH_XOR;
    ARITH_BIC; ARITH_OR; ARITH_MOVHI ].

(** How many times a global function of the script was called. *)
Definition is_call_of (name : string) (e : event) : bool :=
  match e with
  | Ev_lua_call n _ => String.eqb n name
  | _ => false
  end.

Definition calls_of (name : string) (evs : list event) : nat :=
  length (List.filter (is_call_of name) evs).
(** An event other than a call of the success callback. *)
Definition not_success_callback (e : event) : Prop :=
  is_call_of "validate_result" e = false.

(** ** Instances of the interfaces, for running the model *)

(** A target that masks the count of a 32-bit shift to its low five bits, as
    x86 does. *)
Definition masking_shifts : ShiftTarget :=
  {| shl_wide x n := Z.shiftl x (Z.land n 31);
     shr_wide x n := Z.shiftr x (Z.land n 31) |}.

(** Modelled from the spec: the address space declared in [internal.h]
    ([mem_map_new], [ram_init], [mem_map_read], [mem_map_write]), which is
    missing from the sources.  Section 4.1: regions are disjoint ranges;
    an access fails with UnmappedAddress when no region covers the address
    and with UnalignedAccess when it runs past the covering region or, for raw
    storage, is not aligned to its width.  Only raw storage is modelled;
    bytes never written read as zero and multi-byte values are stored least
    significant byte first (the specification fixes neither). *)
Record region : Type := Region {
  base : Z;
  size : Z;
  bytes : gmap Z Z
}.

Definition address_space : Type := list region.

Definition UnmappedAddress : Z := -1.
Definition UnalignedAccess : Z := -2.

Definition covers (addr : Z) (r : region) : bool :=
  (base r <=? addr) && (addr <? base r + size r).

Definition overlaps (b sz : Z) (r : region) : bool :=
  (b <? base r + size r) && (base r <? b + sz).

(** Modelled from the spec: [register_region] for raw storage; [None] is
    AddressConflict. *)
Definition register_region (b sz : Z) (image : gmap Z Z) (m : address_space)
  : option address_space :=
  if existsb (overlaps b sz) m then None else Some (Region b sz image :: m).

Definition width_ok (addr nr_bits : Z) (r : region) : bool :=
  ((nr_bits =? 8) || (nr_bits =? 16) || (nr_bits =? 32))
  && (addr + nr_bits / 8 <=? base r + size r)
  && (addr mod (nr_bits / 8) =? 0).

Fixpoint load_bytes (n : nat) (addr : Z) (b : gmap Z Z) : Z :=
  match n with
  | O => 0
  | S n' => default 0 (b !! addr) + 256 * load_bytes n' (addr + 1) b
  end.

Fixpoint store_bytes (n : nat) (addr val : Z) (b : gmap Z Z) : gmap Z Z :=
  match n with
  | O => b
  | S n' => store_bytes n' (addr + 1) (val / 256) (<[addr := val mod 256]> b)
  end.

(** Modelled from the spec: [read (addr, width)] of section 4.1. *)
Fixpoint space_read (m : address_space) (addr nr_bits : Z) : Z * Z :=
  match m with
  | [] => (UnmappedAddress, 0)
  | r :: m' =>
      if covers addr r then
        if width_ok addr nr_bits r
        then (0, load_bytes (Z.to_nat (nr_bits / 8)) addr (bytes r))
        else (UnalignedAccess, 0)
      else space_read m' addr nr_bits
  end.

(** Modelled from the spec: [write (addr, width, value)] of section 4.1,
    without the observer, which [cpu_mem_map_write] calls itself. *)
Fixpoint space_write (m : address_space) (addr nr_bits val : Z)
  : Z * address_space :=
  match m with
  | [] => (UnmappedAddress, [])
  | r :: m' =>
      if covers addr r then
        if width_ok addr nr_bits r
        then (0, Region (base r) (size r)
                   (store_bytes (Z.to_nat (nr_bits / 8)) addr val (bytes r)) :: m')
        else (UnalignedAccess, r :: m')
      else
        let '(err, m'') := space_write m' addr nr_bits val in (err, r :: m'')
  end.

Definition spec_address_space : MemMap :=
  {| mem_map := address_space;
     mem_map_read := space_read;
     mem_map_write := space_write |}.

(** The image of a program: 32-bit words from address zero on. *)
Fixpoint rom_image_from (addr : Z) (words : list Z) : gmap Z Z :=
  match words with
  | [] => ∅
  | w :: words' => store_bytes 4 addr w (rom_image_from (addr + 4) words')
  end.

(** The memory map [new_cpu] builds, with the program as the content of
    [rom.bin]: 64 KiB of RAM at zero (the debug UART is a device and is left
    out of this instance). *)
Definition ram_with (words : list Z) : address_space :=
  [Region 0x00000000 0x10000 (rom_image_from 0 words)].

(** A test script, by the global functions it defines, those of them that
    call [sim.err], and the calls it has received. *)
Record script : Type := Script {
  defined : list string;
  failing : list string;
  seen : list (string * list Z)
}.

Definition script_call (L : script) (name : string) (args : list Z)
  : option script :=
  if bool_decide (name ∈ failing L) then None
  else Some (Script (defined L) (failing L) (seen L ++ [(name, args)])).

Definition test_script : LuaInterp :=
  {| lua_State := script;
     lua_global_isnil L name := bool_decide (name ∉ defined L);
     lua_call_global := script_call |}.

(** The end-to-end scenario of the specification: R1 := 10; R0 := R1 + 5;
    R2 := 0x100; store the low byte of R0 at [R2]; success sentinel. *)
Definition scenario_program : list Z :=
  [ 0x00002848; 0x00001408; 0x00040090; 0x98000010; 0xffffffff ].

Definition both_hooks : script :=
  Script ["data_write_hook"; "validate_result"] [] [].

Definition no_hooks : script := Script [] [] [].


(** *** States and programs the model is run on *)

(** The scenario at reset, before its store (PC = 12) and at its sentinel
    (PC = 16). *)
Definition scenario_start : @cpu spec_address_space test_script :=
  @new_cpu spec_address_space test_script (ram_with scenario_program) both_hooks.

Definition scenario_at_store : @cpu spec_address_space test_script :=
  @Cpu spec_address_space test_script
    12 12 [15; 10; 256; 0; 0; 0; 0; 0] false false
    (ram_with scenario_program) both_hooks [].

Definition scenario_at_sentinel : @cpu spec_address_space test_script :=
  @Cpu spec_address_space test_script
    16 16 [15; 10; 256; 0; 0; 0; 0; 0] false false
    (ram_with scenario_program) both_hooks [].

(** The state the scenario reaches after its four instructions. *)
Definition scenario_at_sentinel_reached : @cpu spec_address_space test_script :=
  default scenario_start (@cpu_after masking_shifts _ _ 4 scenario_start).

(** The state the driver loop stops in on the scenario, and the calls made
    up to there. *)
Definition scenario_stopped : @cpu spec_address_space test_script :=
  from_option final_cpu scenario_start
    (@run_cycles masking_shifts _ _ 10 scenario_start).

Definition scenario_events : list event :=
  from_option events_of []
    (@run_cycles masking_shifts _ _ 10 scenario_start).

(** R3 := R3 + 0x100; B [R3]. *)
Definition indirect_branch_program : list Z := [ 0x000400D8; 0x52000003 ].

Definition indirect_branch_start : @cpu spec_address_space test_script :=
  @new_cpu spec_address_space test_script
    (ram_with indirect_branch_program) no_hooks.

(** ADDC R0, R1, #5. *)
Definition addc_program : list Z := [ 0x04001408 ].

Definition addc_start : @cpu spec_address_space test_script :=
  @new_cpu spec_address_space test_script (ram_with addc_program) no_hooks.

(** MOVHI R2, #1; store the low byte of R0 at [R2], that is at 0x10000, the
    first address past the RAM. *)
Definition unmapped_store_program : list Z :=
  [ 0x28000480; 0x98000010; 0xffffffff ].

Definition unmapped_store_start : @cpu spec_address_space test_script :=
  @new_cpu spec_address_space test_script
    (ram_with unmapped_store_program) both_hooks.

(** A state at address 0x20 with nothing in memory, for single instructions. *)
Definition idle_at_0x20 : @cpu spec_address_space test_script :=
  @Cpu spec_address_space test_script
    0x20 0x24 (replicate 8 0) false false (ram_with []) no_hooks [].

(** ** Vocabulary of the further properties *)

(** A value of type [uint32_t]. *)
Definition is_u32 (x : Z) : Prop := 0 <= x < 2 ^ 32.

(** The instruction word with the given fields, for class, opcode, 16-bit
    immediate, mode bit 9 and the three register numbers. *)
Definition word_of_fields (cls opc imm16 m rd ra rb : Z) : Z :=
  cls * 2 ^ 30 + opc * 2 ^ 26 + imm16 * 2 ^ 10 + m * 2 ^ 9
  + rd * 2 ^ 6 + ra * 2 ^ 3 + rb.

(** The (class, opcode) pairs the three switches have a case for. *)
Definition emulated (instr : Z) : bool :=
  if instr_class instr =? INSTR_ARITHMETIC then
    bool_decide (In (arith_opc instr) emulated_arith_opcodes)
  else if instr_class instr =? INSTR_BRANCH then
    (branch_opc instr =? BRANCH_B) || (branch_opc instr =? BRANCH_BEQ)
  else if instr_class instr =? INSTR_LDR_STR then
    (ls_opc instr =? LS_LDR8) || (ls_opc instr =? LS_STR8)
  else false.

Definition is_sentinel (instr : Z) : bool :=
  (instr =? SIM_SUCCESS) || (instr =? SIM_FAIL).

(** An 8-bit store, the one instruction that reaches the write path. *)
Definition is_str8 (instr : Z) : bool :=
  (instr_class instr =? INSTR_LDR_STR) && (ls_opc instr =? LS_STR8).

Definition is_decode_error (f : fatal) : bool :=
  match f with
  | Invalid_arith_opcode _ _ | Invalid_branch_opcode _ _
  | Invalid_ls_opcode _ _ | Invalid_class _ _ => true
  | _ => false
  end.

Definition not_decode_error (f : fatal) : Prop := is_decode_error f = false.

Definition is_observer_call (e : event) : bool :=
  match e with
  | Ev_lua_call n _ => String.eqb n "data_write_hook"
  | _ => false
  end.

Definition is_mem_write (e : event) : bool :=
  match e with Ev_mem_write _ _ _ _ => true | _ => false end.

Section Results.
Context `{ShiftTarget, MemMap, LuaInterp}.

(** The value an arithmetic instruction computes from register A and the
    second operand in state [s], by opcode: sum and difference modulo 2^32,
    the two shifts, the bitwise operations, A with the bit numbered by the
    operand cleared, and the operand moved to the high half; zero for an
    opcode that computes nothing. *)
Definition arith_result (instr : Z) (s : cpu) : Z :=
  let a := reg s (instr_ra instr) in
  let b := arith_op2 instr s in
  if arith_opc instr =? ARITH_ADD then (a + b) mod 2 ^ 32
  else if arith_opc instr =? ARITH_SUB then (a - b) mod 2 ^ 32
  else if arith_opc instr =? ARITH_LSL then shl32 a b
  else if arith_opc instr =? ARITH_LSR then shr32 a b
  else if arith_opc instr =? ARITH_AND then Z.land a b
  else if arith_opc instr =? ARITH_XOR then Z.lxor a b
  else if arith_opc instr =? ARITH_BIC then
    Z.land a (u32 (Z.lnot (s32 (shl32 1 b))))
  else if arith_opc instr =? ARITH_OR then Z.lor a b
  else if arith_opc instr =? ARITH_MOVHI then (b * 2 ^ 16) mod 2 ^ 32
  else 0.

End Results.

Section Predicates.
Context `{MemMap, LuaInterp}.

(** The register file as the C type has it: eight slots, each a
    [uint32_t], and a [uint32_t] program counter. *)
Definition wf_cpu (s : cpu) : Prop :=
  length (regs s) = 8%nat /\ Forall is_u32 (regs s) /\ is_u32 (pc s).

(** A branch instruction that is taken in state [s]. *)
Definition branch_taken (instr : Z) (s : cpu) : bool :=
  (instr_class instr =? INSTR_BRANCH)
  && ((branch_opc instr =? BRANCH_B)
      || ((branch_opc instr =? BRANCH_BEQ) && z s)).

(** [grows P m]: [m] only adds to the lines written to the trace stream,
    and adds lines satisfying [P]. *)
Definition grows {A} (P : trace_line -> Prop) (m : sim A) : Prop :=
  forall s,
    exists t, trace_file (final_cpu (m s)) = trace_file s ++ t /\ Forall P t.

Definition not_rule (l : trace_line) : Prop := l <> Tr_rule.

(** [keeps I m]: [m] started in a state satisfying [I] ends, in whatever
    way, in one satisfying [I]. *)
Definition keeps {A} (I : cpu -> Prop) (m : sim A) : Prop :=
  forall s, I s -> I (final_cpu (m s)).

(** [aborts_with P m]: when [m] aborts the process, it does so for a reason
    satisfying [P]. *)
Definition aborts_with {A} (P : fatal -> Prop) (m : sim A) : Prop :=
  forall s, match m s with Died f _ _ => P f | Ran _ _ _ => True end.

(** The invariant of the register file while an instruction executes: as
    [wf_cpu], and [next_pc] is a [uint32_t] too. *)
Definition wf_exec (s : cpu) : Prop := wf_cpu s /\ is_u32 (next_pc s).

End Predicates.

(** A state whose PC is the first address past the RAM. *)
Definition pc_outside_ram : @cpu spec_address_space test_script :=
  @Cpu spec_address_space test_script
    0x10000 0x10000 (replicate 8 0) false false (ram_with []) no_hooks [].


(** ** Facts about the integer conversions and the instruction fields *)

Lemma u32_range (x : Z) : 0 <= u32 x < 2 ^ 32.
Proof. unfold u32. apply Z.mod_pos_bound. lia. Qed.

Lemma u32_small (x : Z) : 0 <= x < 2 ^ 32 -> u32 x = x.
Proof. intros Hx. unfold u32. now apply Z.mod_small. Qed.

Lemma u32_add_s32 (a b : Z) : u32 (a + s32 b) = u32 (a + b).
Proof.
  unfold s32, u32. destruct (b mod 2 ^ 32 <? 2 ^ 31).
  - now rewrite Z.add_mod_idemp_r by lia.
  - replace (a + (b mod 2 ^ 32 - 2 ^ 32))
      with (a + b mod 2 ^ 32 + (-1) * 2 ^ 32) by lia.
    rewrite Z.mod_add by lia. now rewrite Z.add_mod_idemp_r by lia.
Qed.

Lemma mode_bit_testbit (instr n : Z) :
  0 <= n -> mode_bit instr n = Z.testbit instr n.
Proof.
  intros Hn. unfold mode_bit. rewrite Z.shiftl_1_l.
  destruct (Z.testbit instr n) eqn:E.
  - destruct (Z.eqb_spec (Z.land instr (2 ^ n)) 0) as [H0|]; [|reflexivity].
    assert (Hb : Z.testbit (Z.land instr (2 ^ n)) n = true).
    { rewrite Z.land_spec, E, Z.pow2_bits_eqb, Z.eqb_refl by lia. reflexivity. }
    rewrite H0, Z.bits_0 in Hb. discriminate.
  - replace (Z.land instr (2 ^ n)) with 0; [reflexivity|].
    apply Z.bits_inj'. intros m Hm.
    rewrite Z.land_spec, Z.bits_0, Z.pow2_bits_eqb by lia.
    destruct (Z.eqb_spec n m) as [->|]; [now rewrite E|now rewrite andb_false_r].
Qed.

Lemma instr_imm16_range (instr : Z) : 0 <= instr_imm16 instr < 2 ^ 16.
Proof.
  unfold instr_imm16. change 0xffff with (Z.ones 16).
  rewrite Z.land_ones by lia. apply Z.mod_pos_bound. lia.
Qed.

Lemma instr_imm24_range (instr : Z) : 0 <= instr_imm24 instr < 2 ^ 24.
Proof.
  unfold instr_imm24. change 0xffffff with (Z.ones 24).
  rewrite Z.land_ones by lia. apply Z.mod_pos_bound. lia.
Qed.

Lemma instr_reg_range (x : Z) : 0 <= Z.land x 0x7 < 8.
Proof.
  change 0x7 with (Z.ones 3). rewrite Z.land_ones by lia.
  apply Z.mod_pos_bound. lia.
Qed.

(** The pair of shifts on an [int32_t] sign-extends a [k]-bit field, for the
    two field widths of the instruction set. *)
Lemma shift_pair_sign_extends (k x : Z) :
  0 < k <= 32 -> 0 <= x < 2 ^ k ->
  Z.shiftr (s32 (Z.shiftl x (32 - k))) (32 - k) = sign_extend k x.
Proof.
  intros Hk Hx.
  assert (Hp : 2 ^ 32 = 2 ^ k * 2 ^ (32 - k)).
  { rewrite <- Z.pow_add_r by lia. f_equal. lia. }
  assert (Hh : 2 ^ k = 2 * 2 ^ (k - 1)).
  { rewrite <- Z.pow_succ_r by lia. f_equal. lia. }
  assert (Hq : 0 < 2 ^ (32 - k)) by (apply Z.pow_pos_nonneg; lia).
  assert (Hq' : 0 < 2 ^ (k - 1)) by (apply Z.pow_pos_nonneg; lia).
  assert (H31 : 2 ^ 31 = 2 ^ (k - 1) * 2 ^ (32 - k)).
  { rewrite <- Z.pow_add_r by lia. f_equal. lia. }
  unfold s32, sign_extend.
  rewrite Z.shiftl_mul_pow2, Z.shiftr_div_pow2 by lia.
  rewrite (u32_small (x * 2 ^ (32 - k))) by nia.
  rewrite (Z.mod_small x) by lia.
  destruct (Z.ltb_spec x (2 ^ (k - 1))), (Z.ltb_spec (x * 2 ^ (32 - k)) (2 ^ 31));
    try nia.
  - apply Z.div_mul. lia.
  - replace (x * 2 ^ (32 - k) - 2 ^ 32) with ((x - 2 ^ k) * 2 ^ (32 - k)) by nia.
    apply Z.div_mul. lia.
Qed.

Lemma sign_extend_range (k x : Z) :
  0 < k -> - 2 ^ (k - 1) <= sign_extend k x < 2 ^ (k - 1).
Proof.
  intros Hk. unfold sign_extend.
  assert (Hh : 2 ^ k = 2 * 2 ^ (k - 1)).
  { rewrite <- Z.pow_succ_r by lia. f_equal. lia. }
  assert (Hq : 0 < 2 ^ (k - 1)) by (apply Z.pow_pos_nonneg; lia).
  pose proof (Z.mod_pos_bound x (2 ^ k)) as Hm.
  destruct (Z.ltb_spec (x mod 2 ^ k) (2 ^ (k - 1))); lia.
Qed.

Lemma branch_imm24_sign_extends (instr : Z) :
  branch_imm24 instr = sign_extend 24 (instr_imm24 instr).
Proof.
  unfold branch_imm24.
  apply (shift_pair_sign_extends 24); [lia|apply instr_imm24_range].
Qed.

Lemma ldr_str_imm16_sign_extends (instr : Z) :
  ldr_str_imm16 instr = sign_extend 16 (instr_imm16 instr).
Proof.
  unfold ldr_str_imm16.
  apply (shift_pair_sign_extends 16); [lia|apply instr_imm16_range].
Qed.

(** ** Facts about 32-bit values and the bitwise operations *)

Lemma is_u32_u32 (x : Z) : is_u32 (u32 x).
Proof. apply u32_range. Qed.

Lemma is_u32_high_bits (x n : Z) :
  is_u32 x -> 32 <= n -> Z.testbit x n = false.
Proof.
  intros Hx Hn. rewrite <- (Z.mod_small x (2 ^ 32)) by exact Hx.
  apply Z.mod_pow2_bits_high. lia.
Qed.

Lemma is_u32_of_bits (x : Z) :
  0 <= x -> (forall n, 32 <= n -> Z.testbit x n = false) -> is_u32 x.
Proof.
  intros H0 Hb. replace x with (x mod 2 ^ 32); [apply Z.mod_pos_bound; lia|].
  apply Z.bits_inj'. intros n Hn.
  destruct (Z.lt_ge_cases n 32) as [Hlt|Hge].
  - apply Z.mod_pow2_bits_low. lia.
  - rewrite Z.mod_pow2_bits_high by lia. symmetry. now apply Hb.
Qed.

Lemma is_u32_land_l (a b : Z) : is_u32 a -> is_u32 (Z.land a b).
Proof.
  intros Ha. apply is_u32_of_bits.
  - apply Z.land_nonneg. left. apply Ha.
  - intros n Hn. rewrite Z.land_spec, (is_u32_high_bits a n Ha Hn). reflexivity.
Qed.

Lemma is_u32_lor (a b : Z) : is_u32 a -> is_u32 b -> is_u32 (Z.lor a b).
Proof.
  intros Ha Hb. apply is_u32_of_bits.
  - apply Z.lor_nonneg. split; [apply Ha|apply Hb].
  - intros n Hn.
    rewrite Z.lor_spec, (is_u32_high_bits a n Ha Hn), (is_u32_high_bits b n Hb Hn).
    reflexivity.
Qed.

Lemma is_u32_lxor (a b : Z) : is_u32 a -> is_u32 b -> is_u32 (Z.lxor a b).
Proof.
  intros Ha Hb. apply is_u32_of_bits.
  - apply Z.lxor_nonneg. split; intros _; [apply Hb|apply Ha].
  - intros n Hn.
    rewrite Z.lxor_spec, (is_u32_high_bits a n Ha Hn), (is_u32_high_bits b n Hb Hn).
    reflexivity.
Qed.

Lemma is_u32_shiftr (a n : Z) : is_u32 a -> 0 <= n -> is_u32 (Z.shiftr a n).
Proof.
  intros Ha Hn. apply is_u32_of_bits.
  - apply Z.shiftr_nonneg. apply Ha.
  - intros i Hi. rewrite Z.shiftr_spec by lia. apply is_u32_high_bits; [exact Ha|lia].
Qed.

Lemma is_u32_byte (v : Z) : 0 <= Z.land v 0xff < 256.
Proof.
  change 0xff with (Z.ones 8). rewrite Z.land_ones by lia.
  apply Z.mod_pos_bound. lia.
Qed.

Lemma u32_mod_4 (x : Z) : u32 x mod 4 = x mod 4.
Proof.
  unfold u32. change (2 ^ 32) with (4 * 2 ^ 30).
  rewrite Z.rem_mul_r by lia. rewrite Z.mul_comm, Z.mod_add by lia.
  apply Z.mod_mod. lia.
Qed.

(** [x & ~(1 << n)] on 32 bits is [x] with bit [n] cleared. *)
Lemma land_not_bit_clears (x n : Z) :
  is_u32 x -> 0 <= n < 32 ->
  Z.land x (u32 (Z.lnot (s32 (u32 (Z.shiftl 1 n))))) = Z.clearbit x n.
Proof.
  intros Hx Hn. apply Z.bits_inj'. intros i Hi.
  rewrite Z.land_spec, Z.clearbit_eqb.
  destruct (Z.lt_ge_cases i 32) as [Hlt|Hge].
  2:{ rewrite (is_u32_high_bits x i Hx Hge). reflexivity. }
  f_equal. unfold u32 at 1. rewrite Z.mod_pow2_bits_low by lia.
  rewrite Z.lnot_spec by lia. f_equal.
  assert (Hs : Z.testbit (s32 (u32 (Z.shiftl 1 n))) i
               = Z.testbit (Z.shiftl 1 n) i).
  { unfold s32. rewrite (u32_small (u32 _)) by apply u32_range.
    destruct (u32 (Z.shiftl 1 n) <? 2 ^ 31).
    - unfold u32. apply Z.mod_pow2_bits_low. lia.
    - replace (u32 (Z.shiftl 1 n) - 2 ^ 32)
        with (u32 (Z.shiftl 1 n) + (-1) * 2 ^ 32) by lia.
      rewrite <- (Z.mod_pow2_bits_low _ 32 i) by lia.
      rewrite Z.mod_add by lia. rewrite Z.mod_pow2_bits_low by lia.
      unfold u32. apply Z.mod_pow2_bits_low. lia. }
  rewrite Hs, Z.shiftl_1_l, Z.pow2_bits_eqb by lia. reflexivity.
Qed.

(** X1: the field accessors undo the assembly of an instruction word: on
    the word built from a class, an opcode, a 16-bit immediate, the mode bit
    and three register numbers, each in its range, every accessor returns
    the field it was built from, and the word is a 32-bit value. *)
Theorem fields_of_word (cls opc imm16 m rd ra rb : Z) :
  0 <= cls < 4 -> 0 <= opc < 16 -> 0 <= imm16 < 2 ^ 16 -> 0 <= m < 2 ->
  0 <= rd < 8 -> 0 <= ra < 8 -> 0 <= rb < 8 ->
  let w := word_of_fields cls opc imm16 m rd ra rb in
  instr_class w = cls /\ arith_opc w = opc /\ instr_imm16 w = imm16 /\
  mode_bit w 9 = (m =? 1) /\
  instr_rd w = rd /\ instr_ra w = ra /\ instr_rb w = rb /\ is_u32 w.
Proof.
  intros Hc Ho Hi Hm Hd Ha Hb w.
  rewrite (mode_bit_testbit w 9) by lia. rewrite Z.testbit_eqb by lia.
  change (instr_class w) with (Z.land (Z.shiftr w 30) (Z.ones 2)).
  change (arith_opc w) with (Z.land (Z.shiftr w 26) (Z.ones 4)).
  change (instr_imm16 w) with (Z.land (Z.shiftr w 10) (Z.ones 16)).
  change (instr_rd w) with (Z.land (Z.shiftr w 6) (Z.ones 3)).
  change (instr_ra w) with (Z.land (Z.shiftr w 3) (Z.ones 3)).
  change (instr_rb w) with (Z.land w (Z.ones 3)).
  rewrite !Z.land_ones, !Z.shiftr_div_pow2 by lia.
  subst w. unfold word_of_fields, is_u32.
  change (2 ^ 30) with 1073741824. change (2 ^ 26) with 67108864.
  change (2 ^ 10) with 1024. change (2 ^ 9) with 512.
  change (2 ^ 6) with 64. change (2 ^ 3) with 8. change (2 ^ 2) with 4.
  change (2 ^ 4) with 16. change (2 ^ 16) with 65536 in *.
  change (2 ^ 32) with 4294967296. change (2 ^ 1) with 2.
  repeat split; Z.div_mod_to_equations; lia.
Qed.

(** ** Properties of the simulator, for every memory map, script and target *)

Section Properties.
Context `{ShiftTarget, MemMap, LuaInterp}.

Lemma after_nil {A} (o : outcome A) : after [] o = o.
Proof. now destruct o. Qed.

Lemma after_after {A} (evs evs' : list event) (o : outcome A) :
  after evs (after evs' o) = after (evs ++ evs') o.
Proof. destruct o; simpl; now rewrite app_assoc. Qed.

Lemma final_cpu_after {A} (evs : list event) (o : outcome A) :
  final_cpu (after evs o) = final_cpu o.
Proof. now destruct o. Qed.

Lemma events_of_after {A} (evs : list event) (o : outcome A) :
  events_of (after evs o) = evs ++ events_of o.
Proof. now destruct o. Qed.

(** An outcome is determined by its parts; these let a run of the model be
    checked part by part. *)
Lemma ran_intro {A} (o : outcome A) (a : A) (evs : list event) :
  result_of o = Some a -> events_of o = evs -> o = Ran a (final_cpu o) evs.
Proof. destruct o; cbn; [intros [= ->] ->; reflexivity|discriminate]. Qed.

Lemma some_ran_intro {A} (o : option (outcome A)) (d : cpu) (a : A) :
  o ≫= result_of = Some a ->
  o = Some (Ran a (from_option final_cpu d o) (from_option events_of [] o)).
Proof.
  destruct o as [o|]; cbn; [|discriminate].
  intros Hr. f_equal. now apply ran_intro.
Qed.

Lemma some_default {A} (o : option A) (d : A) :
  (fun _ => tt) <$> o = Some tt -> o = Some (default d o).
Proof. destruct o; cbn; [reflexivity|discriminate]. Qed.

(** *** Branches *)

(** A taken branch leaves [branch_target] in [next_pc] and touches nothing
    but [next_pc] and the trace file. *)
Lemma emul_branch_taken (instr : Z) (s : cpu) :
  branch_opc instr = BRANCH_B \/ (branch_opc instr = BRANCH_BEQ /\ z s = true) ->
  exists t,
    emul_branch instr s
    = Ran tt (set_next_pc (branch_target instr s) (set_trace_file t s)) [].
Proof.
  intros [Hb | [Hb Hz]]; unfold emul_branch, bind, get; rewrite Hb; simpl.
  - eexists. reflexivity.
  - rewrite Hz. eexists. reflexivity.
Qed.

Lemma branch_target_relative (instr : Z) (s : cpu) :
  mode_bit instr 25 = false ->
  branch_target instr s
  = u32 (pc s + Z.shiftl (sign_extend 24 (instr_imm24 instr)) 2).
Proof.
  intros Hm. unfold branch_target. rewrite Hm.
  now rewrite u32_add_s32, branch_imm24_sign_extends.
Qed.

Lemma branch_target_indirect (instr : Z) (s : cpu) :
  mode_bit instr 25 = true -> branch_target instr s = instr_rb instr.
Proof. intros Hm. unfold branch_target. now rewrite Hm. Qed.

(** C6: a taken PC-relative branch (bit 25 clear, opcode B, or BEQ with Z
    set) sets Next-PC to PC + (sign-extended 24-bit immediate << 2) in 32-bit
    arithmetic; with the immediate field 0xFFFFFF this is PC - 4. *)
Theorem branch_relative_target (instr : Z) (s : cpu) :
  Z.testbit instr 25 = false ->
  branch_opc instr = BRANCH_B \/ (branch_opc instr = BRANCH_BEQ /\ z s = true) ->
  exists s',
    emul_branch instr s = Ran tt s' [] /\
    next_pc s' = u32 (pc s + Z.shiftl (sign_extend 24 (instr_imm24 instr)) 2) /\
    (instr_imm24 instr = 0xFFFFFF ->
     next_pc s' = u32 (pc s - 4) /\
     (4 <= pc s < 2 ^ 32 -> next_pc s' = pc s - 4)).
Proof.
  intros Hbit Hop. rewrite <- mode_bit_testbit in Hbit by lia.
  destruct (emul_branch_taken instr s Hop) as [t Ht].
  eexists. split; [exact Ht|]. simpl.
  rewrite (branch_target_relative _ _ Hbit). simpl. split; [reflexivity|].
  intros Himm. rewrite Himm.
  change (Z.shiftl (sign_extend 24 0xFFFFFF) 2) with (-4).
  replace (pc s + -4) with (pc s - 4) by lia.
  split; [reflexivity|]. intros Hpc. apply u32_small. lia.
Qed.

(** A taken register-indirect branch (bit 25 set) leaves the number of the
    register, a value below eight, in [next_pc]. *)
Lemma branch_indirect_target (instr : Z) (s : cpu) :
  Z.testbit instr 25 = true ->
  branch_opc instr = BRANCH_B \/ (branch_opc instr = BRANCH_BEQ /\ z s = true) ->
  exists s',
    emul_branch instr s = Ran tt s' [] /\
    next_pc s' = instr_rb instr /\ 0 <= next_pc s' < 8.
Proof.
  intros Hbit Hop. rewrite <- mode_bit_testbit in Hbit by lia.
  destruct (emul_branch_taken instr s Hop) as [t Ht].
  eexists. split; [exact Ht|]. simpl.
  rewrite (branch_target_indirect _ _ Hbit).
  split; [reflexivity|apply instr_reg_range].
Qed.

(** *** Loads and stores *)

Lemma ldr_str_addr_spec (instr : Z) (s : cpu) :
  ldr_str_addr instr s
  = if Z.testbit instr 9
    then u32 (pc s + sign_extend 16 (instr_imm16 instr))
    else u32 (reg s (instr_ra instr) + instr_imm16 instr).
Proof.
  unfold ldr_str_addr. rewrite mode_bit_testbit by lia.
  now rewrite ldr_str_imm16_sign_extends.
Qed.

(** C5: an 8-bit load or store accesses PC + sign-extended 16-bit immediate
    when bit 9 is set, and register A + the zero-extended 16-bit immediate
    (a value in 0..65535) otherwise; the load reads that address, the store
    passes it to the write path. *)
Theorem ldr_str8_effective_address (instr : Z) (s : cpu) :
  ls_opc instr = LS_LDR8 \/ ls_opc instr = LS_STR8 ->
  let addr :=
    if Z.testbit instr 9
    then u32 (pc s + sign_extend 16 (instr_imm16 instr))
    else u32 (reg s (instr_ra instr) + instr_imm16 instr) in
  0 <= instr_imm16 instr < 2 ^ 16 /\
  (ls_opc instr = LS_LDR8 ->
   emul_ldr_str instr s
   = let '(err, v) := mem_map_read (mem s) addr 8 in
     if negb (err =? 0) then Died (Read8_failed addr) s []
     else cpu_wr_reg (instr_rd instr) (Z.land v 0xff) s) /\
  (ls_opc instr = LS_STR8 ->
   emul_ldr_str instr s
   = bind (cpu_mem_map_write addr 8 (Z.land (reg s (instr_rb instr)) 0xff))
       (fun err => if negb (err =? 0) then die (Write8_failed addr) else ret tt)
       s).
Proof.
  intros _ addr. split; [apply instr_imm16_range|].
  assert (Ha : ldr_str_addr instr s = addr) by apply ldr_str_addr_spec.
  split; intros Hop; unfold emul_ldr_str, bind at 1, get; rewrite Hop, Ha; simpl.
  - destruct (mem_map_read (mem s) addr 8) as [err v].
    now destruct (negb (err =? 0)).
  - apply after_nil.
Qed.

(** What a store does when a write observer is registered: the observer is
    called first; if it returns, the write is attempted; the step is fatal if
    either fails. *)
Lemma cpu_mem_map_write_hooked (addr nr_bits val : Z) (s : cpu) :
  lua_global_isnil (lua_interp s) "data_write_hook" = false ->
  cpu_mem_map_write addr nr_bits val s
  = let call := Ev_lua_call "data_write_hook" [addr; nr_bits; val] in
    match lua_call_global (lua_interp s) "data_write_hook" [addr; nr_bits; val] with
    | None => Died (Lua_no_return "data_write_hook") s [call]
    | Some L' =>
        let '(err, m') := mem_map_write (mem s) addr nr_bits val in
        Ran err (set_mem m' (set_lua_interp L' s))
          [call; Ev_mem_write addr nr_bits val err]
    end.
Proof.
  intros Hreg. unfold cpu_mem_map_write, bind at 1, get. rewrite Hreg. simpl.
  unfold bind at 1, lua_call.
  destruct (lua_call_global _ _ _) as [L'|]; [|reflexivity].
  unfold bind, get. simpl.
  now destruct (mem_map_write (mem s) addr nr_bits val) as [err m'].
Qed.

Lemma cpu_mem_map_write_unhooked (addr nr_bits val : Z) (s : cpu) :
  lua_global_isnil (lua_interp s) "data_write_hook" = true ->
  cpu_mem_map_write addr nr_bits val s
  = let '(err, m') := mem_map_write (mem s) addr nr_bits val in
    Ran err (set_mem m' s) [Ev_mem_write addr nr_bits val err].
Proof.
  intros Hreg. unfold cpu_mem_map_write, bind, get. rewrite Hreg. simpl.
  destruct (mem_map_write (mem s) addr nr_bits val) as [err m'].
  simpl. now destruct s.
Qed.

(** C7, as the code has it: for an 8-bit store with a write observer
    registered, the observer is called exactly once, with (address, 8,
    value), before [mem_map_write] is called; it has been called whether the
    write is then committed or refused, and no write is attempted when the
    observer does not return. *)
Theorem store_observer_precedes_write (instr : Z) (s : cpu) :
  ls_opc instr = LS_STR8 ->
  lua_global_isnil (lua_interp s) "data_write_hook" = false ->
  let addr := ldr_str_addr instr s in
  let v := Z.land (reg s (instr_rb instr)) 0xff in
  let call := Ev_lua_call "data_write_hook" [addr; 8; v] in
  emul_ldr_str instr s
  = match lua_call_global (lua_interp s) "data_write_hook" [addr; 8; v] with
    | None => Died (Lua_no_return "data_write_hook") s [call]
    | Some L' =>
        let '(err, m') := mem_map_write (mem s) addr 8 v in
        let s' := set_mem m' (set_lua_interp L' s) in
        if err =? 0 then Ran tt s' [call; Ev_mem_write addr 8 v err]
        else Died (Write8_failed addr) s' [call; Ev_mem_write addr 8 v err]
    end.
Proof.
  intros Hop Hreg addr v call.
  unfold emul_ldr_str, bind at 1, get. rewrite Hop. simpl.
  fold addr v. unfold bind. rewrite cpu_mem_map_write_hooked by exact Hreg.
  fold call. simpl.
  destruct (lua_call_global _ _ _) as [L'|]; [|reflexivity].
  destruct (mem_map_write (mem s) addr 8 v) as [err m'].
  now destruct (err =? 0).
Qed.

(** Without an observer the store is the write alone. *)
Lemma store_without_observer (instr : Z) (s : cpu) :
  ls_opc instr = LS_STR8 ->
  lua_global_isnil (lua_interp s) "data_write_hook" = true ->
  let addr := ldr_str_addr instr s in
  let v := Z.land (reg s (instr_rb instr)) 0xff in
  emul_ldr_str instr s
  = let '(err, m') := mem_map_write (mem s) addr 8 v in
    if err =? 0 then Ran tt (set_mem m' s) [Ev_mem_write addr 8 v err]
    else Died (Write8_failed addr) (set_mem m' s) [Ev_mem_write addr 8 v err].
Proof.
  intros Hop Hreg addr v.
  unfold emul_ldr_str, bind at 1, get. rewrite Hop. simpl.
  fold addr v. unfold bind. rewrite cpu_mem_map_write_unhooked by exact Hreg.
  destruct (mem_map_write (mem s) addr 8 v) as [err m'].
  now destruct (err =? 0).
Qed.

(** *** Fields a computation leaves as they were *)

Lemma frames_ret {A B} (proj : cpu -> B) (a : A) : frames proj (ret a).
Proof. now intros s. Qed.

Lemma frames_get {B} (proj : cpu -> B) : frames proj get.
Proof. now intros s. Qed.

Lemma frames_emit {B} (proj : cpu -> B) (e : event) : frames proj (emit e).
Proof. now intros s. Qed.

Lemma frames_die {A B} (proj : cpu -> B) (f : fatal) : frames proj (@die _ _ A f).
Proof. now intros s. Qed.

Lemma frames_modify {B} (proj : cpu -> B) (f : cpu -> cpu) :
  (forall s, proj (f s) = proj s) -> frames proj (modify f).
Proof. intros Hf s. apply Hf. Qed.

Lemma frames_bind {A A' B} (proj : cpu -> B) (m : sim A) (k : A -> sim A') :
  frames proj m -> (forall a, frames proj (k a)) -> frames proj (bind m k).
Proof.
  intros Hm Hk s. unfold bind. specialize (Hm s).
  destruct (m s) as [a s' evs|f s' evs]; simpl in *; [|exact Hm].
  rewrite final_cpu_after, Hk. exact Hm.
Qed.

Lemma frames_if {A B} (proj : cpu -> B) (b : bool) (m1 m2 : sim A) :
  frames proj m1 -> frames proj m2 -> frames proj (if b then m1 else m2).
Proof. now destruct b. Qed.

Lemma frames_lua_call {B} (proj : cpu -> B) (name : string) (args : list Z) :
  (forall L s, proj (set_lua_interp L s) = proj s) ->
  frames proj (lua_call name args).
Proof.
  intros Hp s. unfold lua_call.
  destruct (lua_call_global _ _ _); simpl; [apply Hp|reflexivity].
Qed.

Ltac frame_step :=
  first
    [ apply frames_ret | apply frames_get | apply frames_emit
    | apply frames_die
    | apply frames_modify; intros; reflexivity
    | apply frames_lua_call; intros; reflexivity
    | apply frames_bind; [|intros ?]
    | apply frames_if
    | match goal with
      | |- frames _ (let '(_, _) := ?p in _) => destruct p
      end ].

Ltac frame := repeat frame_step.

(** *** The carry flag *)

Lemma trace_keeps_c (l : trace_line) : frames c (trace l).
Proof. unfold trace. frame. Qed.

Lemma cpu_wr_reg_keeps_c (r v : Z) : frames c (cpu_wr_reg r v).
Proof. unfold cpu_wr_reg, trace. frame. Qed.

Lemma cpu_set_next_pc_keeps_c (v : Z) : frames c (cpu_set_next_pc v).
Proof. unfold cpu_set_next_pc, trace. frame. Qed.

Lemma emul_arithmetic_keeps_c (instr : Z) : frames c (emul_arithmetic instr).
Proof. unfold emul_arithmetic. frame; apply cpu_wr_reg_keeps_c. Qed.

Lemma emul_branch_keeps_c (instr : Z) : frames c (emul_branch instr).
Proof.
  unfold emul_branch. frame;
    first [apply trace_keeps_c | apply cpu_set_next_pc_keeps_c].
Qed.

Lemma cpu_mem_map_write_keeps_c (addr nr_bits val : Z) :
  frames c (cpu_mem_map_write addr nr_bits val).
Proof. unfold cpu_mem_map_write. frame. Qed.

Lemma emul_ldr_str_keeps_c (instr : Z) : frames c (emul_ldr_str instr).
Proof.
  unfold emul_ldr_str. frame;
    first [apply cpu_wr_reg_keeps_c | apply cpu_mem_map_write_keeps_c].
Qed.

Lemma emul_insn_keeps_c (instr : Z) : frames c (emul_insn instr).
Proof.
  unfold emul_insn. frame;
    first [ apply emul_arithmetic_keeps_c | apply emul_branch_keeps_c
          | apply emul_ldr_str_keeps_c ].
Qed.

Lemma cpu_cycle_keeps_c : frames c cpu_cycle.
Proof.
  unfold cpu_cycle. frame; first [apply trace_keeps_c | apply emul_insn_keeps_c].
Qed.

Lemma cpu_after_keeps_c (n : nat) (s s' : cpu) :
  cpu_after n s = Some s' -> c s' = c s.
Proof.
  revert s. induction n as [|n IH]; intros s Hn; simpl in Hn.
  - now inversion Hn.
  - pose proof (cpu_cycle_keeps_c s) as Hc.
    destruct (cpu_cycle s) as [r s1 evs|f s1 evs]; [|discriminate].
    destruct (s32 r =? 0); [|discriminate].
    rewrite (IH _ Hn). exact Hc.
Qed.

Lemma run_cycles_keeps_c (fuel : nat) (s : cpu) (o : outcome Z) :
  run_cycles fuel s = Some o -> c (final_cpu o) = c s.
Proof.
  revert s o. induction fuel as [|fuel IH]; intros s o Hr; simpl in Hr.
  - discriminate.
  - pose proof (cpu_cycle_keeps_c s) as Hc.
    destruct (cpu_cycle s) as [r s1 evs|f s1 evs]; simpl in Hc.
    + destruct (s32 r =? 0).
      * destruct (run_cycles fuel s1) as [o1|] eqn:E; [|discriminate].
        inversion Hr; subst. rewrite final_cpu_after, (IH _ _ E). exact Hc.
      * inversion Hr; subst. exact Hc.
    + inversion Hr; subst. exact Hc.
Qed.

(** C10: no cycle writes the C flag, however the cycle ends; so C is clear
    at every instruction boundary reached from [new_cpu] and in the state the
    driver loop stops in. *)
Theorem carry_flag_never_written :
  (forall s : cpu, c (final_cpu (cpu_cycle s)) = c s) /\
  (forall (m : mem_map) (L : lua_State) (n : nat) (s' : cpu),
      cpu_after n (new_cpu m L) = Some s' -> c s' = false) /\
  (forall (m : mem_map) (L : lua_State) (fuel : nat) (o : outcome Z),
      run_cycles fuel (new_cpu m L) = Some o -> c (final_cpu o) = false).
Proof.
  split; [exact cpu_cycle_keeps_c|]. split.
  - intros m L n s' Hn. now rewrite (cpu_after_keeps_c _ _ _ Hn).
  - intros m L fuel o Hr. now rewrite (run_cycles_keeps_c _ _ _ Hr).
Qed.

(** *** The register file keeps its eight slots *)

Lemma cpu_wr_reg_keeps_count (r v : Z) : frames reg_count (cpu_wr_reg r v).
Proof.
  unfold cpu_wr_reg, trace. frame.
  apply frames_modify. intros s. apply length_insert.
Qed.

Lemma cpu_cycle_keeps_count : frames reg_count cpu_cycle.
Proof.
  unfold cpu_cycle, emul_insn, emul_arithmetic, emul_branch, emul_ldr_str,
    cpu_mem_map_write, cpu_set_next_pc, trace.
  frame; apply cpu_wr_reg_keeps_count.
Qed.

Lemma cpu_after_eight_registers
    (m : mem_map) (L : lua_State) (n : nat) (s' : cpu) :
  cpu_after n (new_cpu m L) = Some s' -> length (regs s') = 8%nat.
Proof.
  change (length (regs s')) with (reg_count s').
  change 8%nat with (reg_count (new_cpu m L)).
  generalize (new_cpu m L). revert s'.
  induction n as [|n IH]; intros s' s Hn; cbn [cpu_after] in Hn.
  - now inversion Hn.
  - pose proof (cpu_cycle_keeps_count s) as Hc.
    destruct (cpu_cycle s) as [r s1 evs|f s1 evs]; [|discriminate].
    destruct (s32 r =? 0); [|discriminate].
    rewrite (IH _ _ Hn). exact Hc.
Qed.

(** *** Arithmetic *)

(** Evaluation of the monad's operations on an explicit state, leaving the
    integer operations alone. *)
Ltac run_sim :=
  cbn [Z.eqb Pos.eqb negb app
       ARITH_ADD ARITH_SUB ARITH_LSL ARITH_LSR ARITH_AND ARITH_XOR ARITH_BIC
       ARITH_OR ARITH_MOVHI
       cpu_wr_reg cpu_set_next_pc bind get trace modify after ret die emit
       pc next_pc regs z c mem lua_interp trace_file
       set_pc set_next_pc set_regs set_z set_mem set_lua_interp set_trace_file].

(** An opcode with a case in the switch: the destination register is
    written and the instruction completes; only [regs], [z] and the trace
    file change. *)
Lemma emul_arithmetic_emulated (instr : Z) (s : cpu) :
  In (arith_opc instr) emulated_arith_opcodes ->
  exists v zf t,
    emul_arithmetic instr s
    = Ran tt
        (set_z zf
           (set_regs (<[Z.to_nat (instr_rd instr) := v]> (regs s))
              (set_trace_file t s))) [].
Proof.
  intros Hin. unfold emul_arithmetic, bind, get. cbn [after app].
  repeat destruct Hin as [Hop | Hin]; try contradiction;
    rewrite <- Hop; run_sim.
  1-8: do 3 eexists; reflexivity.
  eexists; exists (z s); eexists. destruct s; reflexivity.
Qed.


Lemma not_emulated_eqb (opc : Z) :
  ~ In opc emulated_arith_opcodes ->
  (opc =? ARITH_ADD) = false /\ (opc =? ARITH_SUB) = false /\
  (opc =? ARITH_LSL) = false /\ (opc =? ARITH_LSR) = false /\
  (opc =? ARITH_AND) = false /\ (opc =? ARITH_XOR) = false /\
  (opc =? ARITH_BIC) = false /\ (opc =? ARITH_OR) = false /\
  (opc =? ARITH_MOVHI) = false.
Proof.
  intros Hnin. repeat split; apply Z.eqb_neq; intros ->; apply Hnin;
    unfold emulated_arith_opcodes; simpl; tauto.
Qed.

(** An opcode without one, ADDC and SUBC among them: the fatal exit, with
    nothing written. *)
Lemma emul_arithmetic_invalid (instr : Z) (s : cpu) :
  ~ In (arith_opc instr) emulated_arith_opcodes ->
  emul_arithmetic instr s
  = Died (Invalid_arith_opcode (arith_opc instr) instr) s [].
Proof.
  intros Hnin. apply not_emulated_eqb in Hnin.
  destruct Hnin as (E0 & E1 & E2 & E3 & E4 & E5 & E6 & E7 & E8).
  unfold emul_arithmetic, bind, get.
  rewrite E0, E1, E2, E3, E4, E5, E6, E7, E8. reflexivity.
Qed.

Lemma emul_arithmetic_flags (instr : Z) (s s' : cpu) (evs : list event) :
  emul_arithmetic instr s = Ran tt s' evs ->
  (arith_opc instr <> ARITH_MOVHI -> z s' = (reg s' (instr_rd instr) =? 0)) /\
  (arith_opc instr = ARITH_MOVHI -> z s' = z s /\ c s' = c s).
Proof.
  intros Hrun.
  destruct (in_dec Z.eq_dec (arith_opc instr) emulated_arith_opcodes) as [Hin|Hnin].
  2:{ rewrite emul_arithmetic_invalid in Hrun by exact Hnin. discriminate. }
  pose proof (emul_arithmetic_keeps_c instr s) as Hc. rewrite Hrun in Hc.
  revert Hrun. unfold emul_arithmetic, bind, get. cbn [after app].
  repeat destruct Hin as [Hop | Hin]; try contradiction;
    rewrite <- Hop; run_sim; intros Hrun; inversion Hrun; subst; clear Hrun;
    (split; [intros; first [reflexivity | congruence] | intros Hm; try discriminate Hm]).
  split; [reflexivity | exact Hc].
Qed.

(** *** One cycle *)

Lemma cpu_cycle_unfold (s : cpu) :
  cpu_cycle s
  = let s1 := fetch_state s in
    let '(err, instr) := mem_map_read (mem s) (pc s) 32 in
    if negb (err =? 0) then Died Fetch_assert s1 []
    else if (instr =? SIM_SUCCESS) || (instr =? SIM_FAIL) then Ran instr s1 []
    else match emul_insn instr s1 with
         | Ran _ s2 evs => Ran SIM_CONTINUE (set_pc (next_pc s2) s2) evs
         | Died f s2 evs => Died f s2 evs
         end.
Proof.
  unfold cpu_cycle, fetch_state. run_sim.
  destruct (mem_map_read (mem s) (pc s) 32) as [err instr].
  destruct (negb (err =? 0)); [reflexivity|].
  destruct ((instr =? SIM_SUCCESS) || (instr =? SIM_FAIL)); [reflexivity|].
  rewrite !after_nil. unfold bind at 1.
  destruct (emul_insn instr _) as [[] s2 evs|f s2 evs]; run_sim;
    [now rewrite app_nil_r|reflexivity].
Qed.

Lemma cpu_cycle_result (s s' : cpu) (r : Z) (evs : list event) :
  cpu_cycle s = Ran r s' evs ->
  r = SIM_SUCCESS \/ r = SIM_FAIL \/ r = SIM_CONTINUE.
Proof.
  rewrite cpu_cycle_unfold. cbv zeta.
  destruct (mem_map_read (mem s) (pc s) 32) as [err instr].
  destruct (negb (err =? 0)); [discriminate|].
  destruct (Z.eqb_spec instr SIM_SUCCESS) as [Hs|_]; cbn [orb].
  { intros Hr. injection Hr as <- _ _. now left. }
  destruct (Z.eqb_spec instr SIM_FAIL) as [Hs|_].
  { intros Hr. injection Hr as <- _ _. now right; left. }
  destruct (emul_insn instr _); intros Hr; [|discriminate Hr].
  injection Hr as <- _ _. now right; right.
Qed.

Lemma arithmetic_not_sentinel (instr : Z) :
  instr_class instr = INSTR_ARITHMETIC ->
  (instr =? SIM_SUCCESS) || (instr =? SIM_FAIL) = false.
Proof.
  intros Hc.
  destruct (Z.eqb_spec instr SIM_SUCCESS) as [->|]; [discriminate Hc|].
  destruct (Z.eqb_spec instr SIM_FAIL) as [->|]; [discriminate Hc|].
  reflexivity.
Qed.

Lemma cpu_cycle_arithmetic (s : cpu) (instr : Z) :
  mem_map_read (mem s) (pc s) 32 = (0, instr) ->
  instr_class instr = INSTR_ARITHMETIC ->
  cpu_cycle s
  = match emul_arithmetic instr (fetch_state s) with
    | Ran _ s2 evs => Ran SIM_CONTINUE (set_pc (next_pc s2) s2) evs
    | Died f s2 evs => Died f s2 evs
    end.
Proof.
  intros Hf Hc. rewrite cpu_cycle_unfold, Hf. cbv zeta. simpl negb. cbv iota.
  rewrite (arithmetic_not_sentinel _ Hc).
  unfold emul_insn. rewrite Hc. reflexivity.
Qed.

Lemma emulated_without_carry (opc : Z) :
  In opc emulated_arith_opcodes <->
  In opc named_arith_opcodes /\ opc <> ARITH_ADDC /\ opc <> ARITH_SUBC.
Proof.
  unfold emulated_arith_opcodes, named_arith_opcodes. cbn [In].
  unfold ARITH_ADD, ARITH_ADDC, ARITH_SUB, ARITH_SUBC, ARITH_LSL, ARITH_LSR,
    ARITH_AND, ARITH_XOR, ARITH_BIC, ARITH_OR, ARITH_MOVHI.
  lia.
Qed.

(** The value written, by opcode. *)
Lemma emul_arithmetic_result (instr : Z) (s : cpu) :
  In (arith_opc instr) emulated_arith_opcodes ->
  exists zf t,
    emul_arithmetic instr s
    = Ran tt
        (set_z zf
           (set_regs
              (<[Z.to_nat (instr_rd instr) := arith_result instr s]> (regs s))
              (set_trace_file t s))) [].
Proof.
  intros Hin. unfold emul_arithmetic, arith_result, bind, get. cbn [after app].
  repeat destruct Hin as [Hop | Hin]; try contradiction;
    rewrite <- Hop; run_sim.
  1-8: do 2 eexists; reflexivity.
  exists (z s). eexists.
  rewrite Z.shiftl_mul_pow2 by lia. destruct s; reflexivity.
Qed.

(** C2, as the code has it: an arithmetic instruction whose opcode is one
    of ADD, SUB, LSL, LSR, AND, XOR, BIC, OR, MOVHI completes the cycle and
    writes its result, the value [arith_result] gives for the opcode, to the
    destination register and to no other; with every other opcode value,
    ADDC and SUBC included, the cycle is the fatal invalid-opcode exit with
    no register written. *)
Theorem arithmetic_opcodes_emulated (s : cpu) (instr : Z) :
  mem_map_read (mem s) (pc s) 32 = (0, instr) ->
  instr_class instr = INSTR_ARITHMETIC ->
  (In (arith_opc instr) emulated_arith_opcodes ->
   exists v s',
     cpu_cycle s = Ran SIM_CONTINUE s' [] /\
     v = arith_result instr s /\
     regs s' = <[Z.to_nat (instr_rd instr) := v]> (regs s) /\
     (length (regs s) = 8%nat -> reg s' (instr_rd instr) = v)) /\
  (~ In (arith_opc instr) emulated_arith_opcodes ->
   exists s',
     cpu_cycle s = Died (Invalid_arith_opcode (arith_opc instr) instr) s' [] /\
     regs s' = regs s) /\
  (forall opc,
     In opc emulated_arith_opcodes <->
     In opc named_arith_opcodes /\ opc <> ARITH_ADDC /\ opc <> ARITH_SUBC).
Proof.
  intros Hf Hc. rewrite (cpu_cycle_arithmetic _ _ Hf Hc).
  split; [|split; [|exact emulated_without_carry]].
  - intros Hin.
    destruct (emul_arithmetic_result instr (fetch_state s) Hin)
      as (zf & t & ->).
    exists (arith_result instr s). eexists.
    split; [reflexivity|]. split; [reflexivity|]. split; [reflexivity|].
    intros Hlen. unfold reg at 1. cbn [regs set_pc set_z set_regs].
    rewrite list_lookup_insert_eq; [reflexivity|].
    unfold fetch_state. cbn [regs set_next_pc set_trace_file]. rewrite Hlen.
    pose proof (instr_reg_range (Z.shiftr instr 6)). unfold instr_rd. lia.
  - intros Hnin. rewrite (emul_arithmetic_invalid _ _ Hnin).
    eexists. split; reflexivity.
Qed.

(** C4: after an arithmetic instruction that completes, Z is set exactly
    when the destination register holds zero, unless the opcode is MOVHI, in
    which case Z and C are the flags of the state before. *)
Theorem arithmetic_flag_law (s s' : cpu) (instr r : Z) (evs : list event) :
  mem_map_read (mem s) (pc s) 32 = (0, instr) ->
  instr_class instr = INSTR_ARITHMETIC ->
  cpu_cycle s = Ran r s' evs ->
  (arith_opc instr <> ARITH_MOVHI -> z s' = (reg s' (instr_rd instr) =? 0)) /\
  (arith_opc instr = ARITH_MOVHI -> z s' = z s /\ c s' = c s).
Proof.
  intros Hf Hc. rewrite (cpu_cycle_arithmetic _ _ Hf Hc).
  destruct (emul_arithmetic instr (fetch_state s)) as [[] s2 evs2|] eqn:E;
    [|discriminate].
  intros Hr. inversion Hr; subst; clear Hr.
  apply emul_arithmetic_flags in E. exact E.
Qed.

(** C3: when the word fetched at PC is the SUCCESS or the FAIL sentinel, the
    cycle returns that word and leaves PC, the eight registers, both flags,
    the memory and the script as they were (the rule in the trace file and
    PC + 4 in the shadow next-PC are what it has written); the driver loop
    stops at this cycle with that word as its outcome. *)
Theorem sentinel_halts (s : cpu) (instr : Z) :
  mem_map_read (mem s) (pc s) 32 = (0, instr) ->
  instr = SIM_SUCCESS \/ instr = SIM_FAIL ->
  exists s',
    cpu_cycle s = Ran instr s' [] /\
    pc s' = pc s /\ regs s' = regs s /\ z s' = z s /\ c s' = c s /\
    mem s' = mem s /\ lua_interp s' = lua_interp s /\
    next_pc s' = u32 (pc s + 4) /\
    (forall fuel, run_cycles (S fuel) s = Some (Ran (s32 instr) s' [])) /\
    u32 (s32 instr) = instr /\ s32 instr <> 0.
Proof.
  intros Hf Hs. exists (fetch_state s).
  assert (Hc : cpu_cycle s = Ran instr (fetch_state s) []).
  { rewrite cpu_cycle_unfold, Hf. cbv zeta. simpl negb. cbv iota.
    destruct Hs as [-> | ->]; reflexivity. }
  split; [exact Hc|]. repeat split.
  - intros fuel. cbn [run_cycles]. rewrite Hc.
    destruct Hs as [-> | ->]; reflexivity.
  - destruct Hs as [-> | ->]; reflexivity.
  - destruct Hs as [-> | ->]; discriminate.
Qed.

(** *** The calls a cycle makes *)

Lemma emits_ret {A} (P : event -> Prop) (a : A) : emits P (ret a).
Proof. intros s. constructor. Qed.

Lemma emits_get (P : event -> Prop) : emits P get.
Proof. intros s. constructor. Qed.

Lemma emits_modify (P : event -> Prop) (f : cpu -> cpu) : emits P (modify f).
Proof. intros s. constructor. Qed.

Lemma emits_die {A} (P : event -> Prop) (f : fatal) : emits P (@die _ _ A f).
Proof. intros s. constructor. Qed.

Lemma emits_emit (P : event -> Prop) (e : event) : P e -> emits P (emit e).
Proof. intros He s. repeat constructor. exact He. Qed.

Lemma emits_bind {A A'} (P : event -> Prop) (m : sim A) (k : A -> sim A') :
  emits P m -> (forall a, emits P (k a)) -> emits P (bind m k).
Proof.
  intros Hm Hk s. unfold bind. specialize (Hm s).
  destruct (m s) as [a s' evs|f s' evs]; cbn [events_of] in *; [|exact Hm].
  rewrite events_of_after. apply Forall_app. split; [exact Hm|apply Hk].
Qed.

Lemma emits_if {A} (P : event -> Prop) (b : bool) (m1 m2 : sim A) :
  emits P m1 -> emits P m2 -> emits P (if b then m1 else m2).
Proof. now destruct b. Qed.

Lemma emits_lua_call (P : event -> Prop) (name : string) (args : list Z) :
  P (Ev_lua_call name args) -> emits P (lua_call name args).
Proof.
  intros Hp s. unfold lua_call.
  destruct (lua_call_global _ _ _); repeat constructor; exact Hp.
Qed.

Ltac emits_step :=
  first
    [ apply emits_ret | apply emits_get | apply emits_modify | apply emits_die
    | apply emits_emit; reflexivity
    | apply emits_lua_call; reflexivity
    | apply emits_bind; [|intros ?]
    | apply emits_if
    | match goal with
      | |- emits _ (let '(_, _) := ?p in _) => destruct p
      end ].

(** The success callback is not among the calls of a cycle. *)
Lemma cpu_cycle_emits : emits not_success_callback cpu_cycle.
Proof.
  unfold cpu_cycle, emul_insn, emul_arithmetic, emul_branch, emul_ldr_str,
    cpu_mem_map_write, cpu_wr_reg, cpu_set_next_pc, trace.
  repeat emits_step.
Qed.

Lemma calls_of_app (name : string) (evs evs' : list event) :
  calls_of name (evs ++ evs') = (calls_of name evs + calls_of name evs')%nat.
Proof. unfold calls_of. now rewrite List.filter_app, length_app. Qed.

Lemma calls_of_none (evs : list event) :
  Forall not_success_callback evs -> calls_of "validate_result" evs = 0%nat.
Proof.
  unfold calls_of. induction 1 as [|e evs He _ IH]; [reflexivity|].
  cbn [List.filter]. unfold not_success_callback in He. now rewrite He.
Qed.

Lemma run_cycles_emits (fuel : nat) (s : cpu) (o : outcome Z) :
  run_cycles fuel s = Some o -> Forall not_success_callback (events_of o).
Proof.
  revert s o. induction fuel as [|fuel IH]; intros s o Hr; cbn [run_cycles] in Hr.
  - discriminate.
  - pose proof (cpu_cycle_emits s) as He.
    destruct (cpu_cycle s) as [r s1 evs|f s1 evs]; cbn [events_of] in He.
    + destruct (s32 r =? 0).
      * destruct (run_cycles fuel s1) as [o1|] eqn:E; [|discriminate].
        inversion Hr; subst. rewrite events_of_after.
        apply Forall_app. split; [exact He|exact (IH _ _ E)].
      * inversion Hr; subst. exact He.
    + inversion Hr; subst. exact He.
Qed.

(** The loop stops on a sentinel only. *)
Lemma run_cycles_outcome (fuel : nat) (s s' : cpu) (err : Z) (evs : list event) :
  run_cycles fuel s = Some (Ran err s' evs) ->
  u32 err = SIM_SUCCESS \/ u32 err = SIM_FAIL.
Proof.
  revert s evs. induction fuel as [|fuel IH]; intros s evs Hr;
    cbn [run_cycles] in Hr.
  - discriminate.
  - destruct (cpu_cycle s) as [r s1 evs1|f s1 evs1] eqn:Hc; [|discriminate].
    destruct (s32 r =? 0) eqn:Hz.
    + destruct (run_cycles fuel s1) as [[err2 s2 evs2|]|] eqn:E;
        try discriminate.
      cbn in Hr. inversion Hr; subst. exact (IH _ _ E).
    + inversion Hr; subst.
      destruct (cpu_cycle_result _ _ _ _ Hc) as [-> | [-> | ->]];
        [now left|now right|discriminate Hz].
Qed.

(** *** The end of [main] *)

Lemma report_failure (err : Z) (s : cpu) :
  u32 err <> SIM_SUCCESS ->
  report err s = Ran EXIT_FAILURE s [Ev_stdout ("[FAIL]" ++ nl)].
Proof.
  intros Hne. apply Z.eqb_neq in Hne. unfold report. rewrite Hne. reflexivity.
Qed.

Lemma report_success_events (err : Z) (s : cpu) :
  u32 err = SIM_SUCCESS ->
  events_of (report err s)
  = Ev_stdout ("[SUCCESS]" ++ nl)
    :: (if lua_global_isnil (lua_interp s) "validate_result" then []
        else [Ev_lua_call "validate_result" []]).
Proof.
  intros He. apply Z.eqb_eq in He.
  unfold report, validate_result, lua_call, bind, emit, get, ret.
  rewrite He.
  destruct (lua_global_isnil (lua_interp s) "validate_result"); cbn [negb].
  - reflexivity.
  - destruct (lua_call_global _ _ _); reflexivity.
Qed.

(** C8: when the loop stops with a terminal outcome and the script defines
    the success callback [validate_result], [main] calls it exactly once if
    the outcome is the SUCCESS sentinel and not at all otherwise; on FAIL it
    prints the failure line and returns the failure exit status. *)
Theorem success_callback_iff_success
    (fuel : nat) (m : mem_map) (L : lua_State)
    (err : Z) (s1 : cpu) (evs : list event) :
  run_cycles fuel (new_cpu m L) = Some (Ran err s1 evs) ->
  lua_global_isnil (lua_interp s1) "validate_result" = false ->
  exists o,
    main fuel m L = Some o /\
    (u32 err = SIM_SUCCESS \/ u32 err = SIM_FAIL) /\
    (calls_of "validate_result" (events_of o) = 1%nat <-> u32 err = SIM_SUCCESS) /\
    (u32 err = SIM_FAIL ->
     calls_of "validate_result" (events_of o) = 0%nat /\
     o = Ran EXIT_FAILURE s1
           (Ev_stdout ("Oldland CPU simulator" ++ nl)
              :: evs ++ [Ev_stdout ("[FAIL]" ++ nl)])).
Proof.
  intros Hrun Hreg. unfold main. rewrite Hrun.
  eexists. split; [reflexivity|].
  pose proof (run_cycles_outcome _ _ _ _ _ Hrun) as Hout.
  pose proof (run_cycles_emits _ _ _ Hrun) as Hev. cbn [events_of] in Hev.
  split; [exact Hout|].
  rewrite events_of_after, !calls_of_app, (calls_of_none _ Hev).
  change (calls_of "validate_result" [Ev_stdout ("Oldland CPU simulator" ++ nl)])
    with 0%nat.
  split.
  - destruct Hout as [Hs | Hf].
    + rewrite (report_success_events _ _ Hs), Hreg. split; [intros _; exact Hs|].
      reflexivity.
    + rewrite report_failure by (rewrite Hf; discriminate).
      split; [discriminate|]. rewrite Hf. discriminate.
  - intros Hf. rewrite report_failure by (rewrite Hf; discriminate).
    split; [reflexivity|]. cbn [after]. now rewrite <- app_assoc.
Qed.

(** Without a success callback in the script nothing is called. *)
Lemma no_success_callback_no_call
    (fuel : nat) (m : mem_map) (L : lua_State)
    (err : Z) (s1 : cpu) (evs : list event) :
  run_cycles fuel (new_cpu m L) = Some (Ran err s1 evs) ->
  lua_global_isnil (lua_interp s1) "validate_result" = true ->
  exists o,
    main fuel m L = Some o /\ calls_of "validate_result" (events_of o) = 0%nat.
Proof.
  intros Hrun Hreg. unfold main. rewrite Hrun.
  eexists. split; [reflexivity|].
  pose proof (run_cycles_emits _ _ _ Hrun) as Hev. cbn [events_of] in Hev.
  rewrite events_of_after, !calls_of_app, (calls_of_none _ Hev).
  destruct (run_cycles_outcome _ _ _ _ _ Hrun) as [Hs | Hf].
  - rewrite (report_success_events _ _ Hs), Hreg. reflexivity.
  - rewrite report_failure by (rewrite Hf; discriminate). reflexivity.
Qed.

(** *** What each class of instruction leaves alone *)

(** [frame], with the goals it leaves closed by the hypotheses on [proj]. *)
Ltac frame_by_hyps :=
  frame;
  first [ apply frames_lua_call; assumption
        | apply frames_modify; intros ?; auto ].

Lemma cpu_wr_reg_other_slot (j : nat) (r v : Z) :
  j <> Z.to_nat r -> frames (fun s => regs s !! j) (cpu_wr_reg r v).
Proof.
  intros Hj. unfold cpu_wr_reg, trace. frame.
  apply frames_modify. intros s. cbn [regs set_regs].
  apply list_lookup_insert_ne. congruence.
Qed.

Lemma emul_arithmetic_frames {B} (proj : cpu -> B) (instr : Z) :
  (forall l s, proj (set_regs l s) = proj s) ->
  (forall t s, proj (set_trace_file t s) = proj s) ->
  (forall b s, proj (set_z b s) = proj s) ->
  frames proj (emul_arithmetic instr).
Proof. intros Hr Ht Hz. unfold emul_arithmetic. frame_by_hyps. Qed.

Lemma emul_arithmetic_other_slot (j : nat) (instr : Z) :
  j <> Z.to_nat (instr_rd instr) ->
  frames (fun s => regs s !! j) (emul_arithmetic instr).
Proof.
  intros Hj. unfold emul_arithmetic. frame;
    apply frames_modify; intros s; cbn [regs set_regs];
    apply list_lookup_insert_ne; congruence.
Qed.

Lemma emul_branch_frames {B} (proj : cpu -> B) (instr : Z) :
  (forall x s, proj (set_next_pc x s) = proj s) ->
  (forall t s, proj (set_trace_file t s) = proj s) ->
  frames proj (emul_branch instr).
Proof. intros Hn Ht. unfold emul_branch. frame_by_hyps. Qed.

Lemma cpu_mem_map_write_frames {B} (proj : cpu -> B) (addr nr_bits val : Z) :
  (forall L s, proj (set_lua_interp L s) = proj s) ->
  (forall m s, proj (set_mem m s) = proj s) ->
  frames proj (cpu_mem_map_write addr nr_bits val).
Proof. intros Hl Hm. unfold cpu_mem_map_write. frame_by_hyps. Qed.

Lemma emul_ldr_str_frames {B} (proj : cpu -> B) (instr : Z) :
  (forall l s, proj (set_regs l s) = proj s) ->
  (forall t s, proj (set_trace_file t s) = proj s) ->
  (forall L s, proj (set_lua_interp L s) = proj s) ->
  (forall m s, proj (set_mem m s) = proj s) ->
  frames proj (emul_ldr_str instr).
Proof. intros Hr Ht Hl Hm. unfold emul_ldr_str. frame_by_hyps. Qed.

Lemma emul_ldr_str_other_slot (j : nat) (instr : Z) :
  j <> Z.to_nat (instr_rd instr) ->
  frames (fun s => regs s !! j) (emul_ldr_str instr).
Proof.
  intros Hj. unfold emul_ldr_str. frame;
    apply frames_modify; intros s; cbn [regs set_regs];
    apply list_lookup_insert_ne; congruence.
Qed.

(** Everything but an 8-bit store leaves alone what [cpu_wr_reg] does not
    write, the memory and the script included. *)
Lemma emul_ldr_str_not_store_frames {B} (proj : cpu -> B) (instr : Z) :
  (ls_opc instr =? LS_STR8) = false ->
  (forall l s, proj (set_regs l s) = proj s) ->
  (forall t s, proj (set_trace_file t s) = proj s) ->
  frames proj (emul_ldr_str instr).
Proof. intros Hop Hr Ht. unfold emul_ldr_str. rewrite Hop. frame_by_hyps. Qed.

Lemma emul_ldr_str_store_frames_regs (instr : Z) :
  (ls_opc instr =? LS_STR8) = true -> frames regs (emul_ldr_str instr).
Proof.
  intros Hop. unfold emul_ldr_str. rewrite Hop.
  replace (ls_opc instr =? LS_LDR8) with false
    by (apply Z.eqb_eq in Hop; rewrite Hop; reflexivity).
  frame.
Qed.

(** *** The state and the calls a cycle leaves, by the word fetched *)

Lemma cpu_cycle_final (s : cpu) (err instr : Z) :
  mem_map_read (mem s) (pc s) 32 = (err, instr) ->
  final_cpu (cpu_cycle s)
  = if negb (err =? 0) || is_sentinel instr then fetch_state s
    else match emul_insn instr (fetch_state s) with
         | Ran _ s2 _ => set_pc (next_pc s2) s2
         | Died _ s2 _ => s2
         end.
Proof.
  intros Hf. rewrite cpu_cycle_unfold, Hf. cbv zeta. unfold is_sentinel.
  destruct (negb (err =? 0)); [reflexivity|]. cbn [orb].
  destruct ((instr =? SIM_SUCCESS) || (instr =? SIM_FAIL)); [reflexivity|].
  now destruct (emul_insn instr (fetch_state s)).
Qed.

Lemma cpu_cycle_events (s : cpu) (err instr : Z) :
  mem_map_read (mem s) (pc s) 32 = (err, instr) ->
  events_of (cpu_cycle s)
  = if negb (err =? 0) || is_sentinel instr then []
    else events_of (emul_insn instr (fetch_state s)).
Proof.
  intros Hf. rewrite cpu_cycle_unfold, Hf. cbv zeta. unfold is_sentinel.
  destruct (negb (err =? 0)); [reflexivity|]. cbn [orb].
  destruct ((instr =? SIM_SUCCESS) || (instr =? SIM_FAIL)); [reflexivity|].
  now destruct (emul_insn instr (fetch_state s)).
Qed.

(** A field that neither the fetch nor the final [pc := next_pc] touches is
    after the cycle what the instruction made of it. *)
Lemma cpu_cycle_frames_by_insn {B} (proj : cpu -> B) (s : cpu) (err instr : Z) :
  mem_map_read (mem s) (pc s) 32 = (err, instr) ->
  (forall x s, proj (set_pc x s) = proj s) ->
  (forall x s, proj (set_next_pc x s) = proj s) ->
  (forall t s, proj (set_trace_file t s) = proj s) ->
  frames proj (emul_insn instr) ->
  proj (final_cpu (cpu_cycle s)) = proj s.
Proof.
  intros Hf Hp Hn Ht Hi. rewrite (cpu_cycle_final _ _ _ Hf).
  assert (Hs : proj (fetch_state s) = proj s).
  { unfold fetch_state. now rewrite Hn, Ht. }
  destruct (negb (err =? 0) || is_sentinel instr); [exact Hs|].
  specialize (Hi (fetch_state s)).
  destruct (emul_insn instr (fetch_state s)); cbn [final_cpu] in Hi;
    rewrite ?Hp, Hi; exact Hs.
Qed.

(** *** Z is written by arithmetic instructions only *)

(** X3: a cycle whose fetch fails, or whose fetched word is not of the
    arithmetic class (a branch, a load or store, an invalid word, a
    sentinel), leaves the Z flag as it was, however the cycle ends. *)
Theorem z_written_by_arithmetic_only (s : cpu) (err instr : Z) :
  mem_map_read (mem s) (pc s) 32 = (err, instr) ->
  err <> 0 \/ instr_class instr <> INSTR_ARITHMETIC ->
  z (final_cpu (cpu_cycle s)) = z s.
Proof.
  intros Hf [He | Hc].
  - rewrite (cpu_cycle_final _ _ _ Hf). apply Z.eqb_neq in He. rewrite He.
    reflexivity.
  - apply (cpu_cycle_frames_by_insn z s err instr Hf); try reflexivity.
    unfold emul_insn. apply Z.eqb_neq in Hc. rewrite Hc. frame.
Qed.

(** *** Only the 8-bit store reaches the memory and the script *)

Lemma no_events (evs : list event) : Forall (fun _ => False) evs -> evs = [].
Proof. now destruct 1. Qed.

Lemma emul_insn_quiet (instr : Z) :
  is_str8 instr = false -> emits (fun _ => False) (emul_insn instr).
Proof.
  unfold is_str8, emul_insn. intros Hs.
  destruct (instr_class instr =? INSTR_ARITHMETIC) eqn:Ha.
  { unfold emul_arithmetic, cpu_wr_reg, trace. repeat emits_step. }
  destruct (instr_class instr =? INSTR_BRANCH) eqn:Hb.
  { unfold emul_branch, cpu_set_next_pc, trace. repeat emits_step. }
  destruct (instr_class instr =? INSTR_LDR_STR) eqn:Hl; [|apply emits_die].
  cbn [andb] in Hs. unfold emul_ldr_str, cpu_wr_reg, trace. rewrite Hs.
  repeat emits_step.
Qed.

Lemma emul_insn_not_store_frames {B} (proj : cpu -> B) (instr : Z) :
  is_str8 instr = false ->
  (forall l s, proj (set_regs l s) = proj s) ->
  (forall t s, proj (set_trace_file t s) = proj s) ->
  (forall b s, proj (set_z b s) = proj s) ->
  (forall x s, proj (set_next_pc x s) = proj s) ->
  frames proj (emul_insn instr).
Proof.
  unfold is_str8, emul_insn. intros Hs Hr Ht Hz Hn.
  destruct (instr_class instr =? INSTR_ARITHMETIC) eqn:Ha.
  { now apply emul_arithmetic_frames. }
  destruct (instr_class instr =? INSTR_BRANCH) eqn:Hb.
  { now apply emul_branch_frames. }
  destruct (instr_class instr =? INSTR_LDR_STR) eqn:Hl; [|apply frames_die].
  cbn [andb] in Hs. now apply emul_ldr_str_not_store_frames.
Qed.

(** X4: a cycle whose instruction is not an 8-bit store leaves the memory
    and the script as they were and makes no call to a collaborator: no
    observer call, no write. *)
Theorem only_store_reaches_memory (s : cpu) (err instr : Z) :
  mem_map_read (mem s) (pc s) 32 = (err, instr) ->
  is_str8 instr = false ->
  mem (final_cpu (cpu_cycle s)) = mem s /\
  lua_interp (final_cpu (cpu_cycle s)) = lua_interp s /\
  events_of (cpu_cycle s) = [].
Proof.
  intros Hf Hs. repeat split.
  - apply (cpu_cycle_frames_by_insn mem s err instr Hf); try reflexivity.
    apply emul_insn_not_store_frames; [exact Hs|reflexivity..].
  - apply (cpu_cycle_frames_by_insn lua_interp s err instr Hf); try reflexivity.
    apply emul_insn_not_store_frames; [exact Hs|reflexivity..].
  - rewrite (cpu_cycle_events _ _ _ Hf).
    destruct (negb (err =? 0) || is_sentinel instr); [reflexivity|].
    apply no_events. apply (emul_insn_quiet instr Hs).
Qed.

(** *** A cycle writes the destination register at most *)

Lemma emul_insn_other_slot (j : nat) (instr : Z) :
  j <> Z.to_nat (instr_rd instr) ->
  frames (fun s => regs s !! j) (emul_insn instr).
Proof.
  intros Hj. unfold emul_insn.
  destruct (instr_class instr =? INSTR_ARITHMETIC).
  { now apply emul_arithmetic_other_slot. }
  destruct (instr_class instr =? INSTR_BRANCH).
  { apply emul_branch_frames; reflexivity. }
  destruct (instr_class instr =? INSTR_LDR_STR); [|apply frames_die].
  now apply emul_ldr_str_other_slot.
Qed.

Lemma emul_insn_frames_regs (instr : Z) :
  instr_class instr = INSTR_BRANCH \/ is_str8 instr = true ->
  frames regs (emul_insn instr).
Proof.
  unfold is_str8, emul_insn. intros [Hb | Hs].
  - rewrite Hb. cbn [Z.eqb INSTR_BRANCH INSTR_ARITHMETIC Pos.eqb].
    apply emul_branch_frames; reflexivity.
  - apply andb_true_iff in Hs as [Hc Hop]. apply Z.eqb_eq in Hc. rewrite Hc.
    cbn [Z.eqb INSTR_LDR_STR INSTR_BRANCH INSTR_ARITHMETIC Pos.eqb].
    now apply emul_ldr_str_store_frames_regs.
Qed.

(** X5: whatever word is fetched and however the cycle ends, every register
    slot other than the one numbered by the destination field keeps its
    value, the number of slots does not change, and a branch or an 8-bit
    store changes no register at all. *)
Theorem cycle_writes_destination_only (s : cpu) (err instr : Z) :
  mem_map_read (mem s) (pc s) 32 = (err, instr) ->
  (forall j : nat,
      j <> Z.to_nat (instr_rd instr) ->
      regs (final_cpu (cpu_cycle s)) !! j = regs s !! j) /\
  length (regs (final_cpu (cpu_cycle s))) = length (regs s) /\
  (instr_class instr = INSTR_BRANCH \/ is_str8 instr = true ->
   regs (final_cpu (cpu_cycle s)) = regs s).
Proof.
  intros Hf. repeat split.
  - intros j Hj.
    apply (cpu_cycle_frames_by_insn (fun s => regs s !! j) s err instr Hf);
      try reflexivity.
    now apply emul_insn_other_slot.
  - apply cpu_cycle_keeps_count.
  - intros Hc.
    apply (cpu_cycle_frames_by_insn regs s err instr Hf); try reflexivity.
    now apply emul_insn_frames_regs.
Qed.

(** *** The program counter *)

Lemma emul_insn_next_pc (instr : Z) (s s2 : cpu) (evs : list event) :
  emul_insn instr s = Ran tt s2 evs ->
  next_pc s2
  = if branch_taken instr s then branch_target instr s else next_pc s.
Proof.
  unfold emul_insn, branch_taken. intros Hrun.
  destruct (instr_class instr =? INSTR_ARITHMETIC) eqn:Ha.
  { apply Z.eqb_eq in Ha. rewrite Ha. cbn [Z.eqb INSTR_ARITHMETIC INSTR_BRANCH andb].
    pose proof (emul_arithmetic_frames next_pc instr) as Hfr.
    specialize (Hfr ltac:(reflexivity) ltac:(reflexivity) ltac:(reflexivity) s).
    now rewrite Hrun in Hfr. }
  destruct (instr_class instr =? INSTR_BRANCH) eqn:Hb; cbn [andb].
  - revert Hrun. unfold emul_branch, bind, get. cbn [after app].
    destruct (branch_opc instr =? BRANCH_B) eqn:HB; cbn [orb].
    { run_sim. intros [= <-]. reflexivity. }
    destruct (branch_opc instr =? BRANCH_BEQ) eqn:HE; [|discriminate].
    run_sim. destruct (z s); cbn [andb]; run_sim; intros [= <-]; reflexivity.
  - destruct (instr_class instr =? INSTR_LDR_STR) eqn:Hl; [|discriminate].
    pose proof (emul_ldr_str_frames next_pc instr) as Hfr.
    specialize (Hfr ltac:(reflexivity) ltac:(reflexivity) ltac:(reflexivity)
                    ltac:(reflexivity) s).
    now rewrite Hrun in Hfr.
Qed.

(** X6: a cycle that completes an instruction leaves in PC the branch target
    if the instruction is a taken branch (B, or BEQ with Z set), and
    (PC + 4) mod 2^32 in every other case. *)
Theorem pc_update_law (s s' : cpu) (err instr : Z) (evs : list event) :
  mem_map_read (mem s) (pc s) 32 = (err, instr) ->
  cpu_cycle s = Ran SIM_CONTINUE s' evs ->
  pc s' = if branch_taken instr s then branch_target instr s
          else u32 (pc s + 4).
Proof.
  intros Hf. rewrite cpu_cycle_unfold, Hf. cbv zeta.
  destruct (negb (err =? 0)); [discriminate|].
  destruct (Z.eqb_spec instr SIM_SUCCESS) as [->|_]; [discriminate|].
  destruct (Z.eqb_spec instr SIM_FAIL) as [->|_]; [discriminate|]. cbn [orb].
  destruct (emul_insn instr (fetch_state s)) as [[] s2 evs2|] eqn:Hi;
    [|discriminate].
  intros [= <- _]. cbn [pc set_pc].
  apply (emul_insn_next_pc instr (fetch_state s) s2 evs2 Hi).
Qed.

(** X7: the PC stays a multiple of four under every completed cycle except
    a taken register-indirect branch (bit 25 set). *)
Theorem pc_stays_word_aligned (s s' : cpu) (err instr : Z) (evs : list event) :
  mem_map_read (mem s) (pc s) 32 = (err, instr) ->
  cpu_cycle s = Ran SIM_CONTINUE s' evs ->
  pc s mod 4 = 0 ->
  branch_taken instr s && Z.testbit instr 25 = false ->
  pc s' mod 4 = 0.
Proof.
  intros Hf Hrun Hal Hind. rewrite (pc_update_law _ _ _ _ _ Hf Hrun).
  destruct (branch_taken instr s); cbn [andb] in Hind.
  - rewrite <- mode_bit_testbit in Hind by lia.
    rewrite (branch_target_relative _ _ Hind), u32_mod_4.
    rewrite Z.shiftl_mul_pow2 by lia. change (2 ^ 2) with 4.
    rewrite Z.mod_add by lia. exact Hal.
  - rewrite u32_mod_4. replace (pc s + 4) with (pc s + 1 * 4) by lia.
    rewrite Z.mod_add by lia. exact Hal.
Qed.

(** *** Decode errors *)

Lemma aborts_with_ret {A} (P : fatal -> Prop) (a : A) : aborts_with P (ret a).
Proof. now intros s. Qed.

Lemma aborts_with_get (P : fatal -> Prop) : aborts_with P get.
Proof. now intros s. Qed.

Lemma aborts_with_modify (P : fatal -> Prop) (f : cpu -> cpu) :
  aborts_with P (modify f).
Proof. now intros s. Qed.

Lemma aborts_with_emit (P : fatal -> Prop) (e : event) : aborts_with P (emit e).
Proof. now intros s. Qed.

Lemma aborts_with_die {A} (P : fatal -> Prop) (f : fatal) :
  P f -> aborts_with P (@die _ _ A f).
Proof. now intros Hf s. Qed.

Lemma aborts_with_bind {A A'} (P : fatal -> Prop) (m : sim A) (k : A -> sim A') :
  aborts_with P m -> (forall a, aborts_with P (k a)) -> aborts_with P (bind m k).
Proof.
  intros Hm Hk s. unfold bind. specialize (Hm s).
  destruct (m s) as [a s1 evs|f s1 evs]; [|exact Hm].
  specialize (Hk a s1). now destruct (k a s1).
Qed.

Lemma aborts_with_if {A} (P : fatal -> Prop) (b : bool) (m1 m2 : sim A) :
  aborts_with P m1 -> aborts_with P m2 -> aborts_with P (if b then m1 else m2).
Proof. now destruct b. Qed.

Lemma aborts_with_lua_call (P : fatal -> Prop) (name : string) (args : list Z) :
  P (Lua_no_return name) -> aborts_with P (lua_call name args).
Proof.
  intros Hp s. unfold lua_call. now destruct (lua_call_global _ _ _).
Qed.

Ltac aborts_step :=
  first
    [ apply aborts_with_ret | apply aborts_with_get | apply aborts_with_modify
    | apply aborts_with_emit
    | apply aborts_with_die; reflexivity
    | apply aborts_with_lua_call; reflexivity
    | apply aborts_with_bind; [|intros ?]
    | apply aborts_with_if
    | match goal with
      | |- aborts_with _ (let '(_, _) := ?p in _) => destruct p
      end ].

Lemma emul_insn_emulated (instr : Z) :
  emulated instr = true -> aborts_with not_decode_error (emul_insn instr).
Proof.
  unfold emulated, emul_insn.
  destruct (instr_class instr =? INSTR_ARITHMETIC).
  { intros Hin%bool_decide_eq_true s.
    destruct (emul_arithmetic_emulated instr s Hin) as (v & zf & t & ->).
    exact I. }
  destruct (instr_class instr =? INSTR_BRANCH).
  { intros Hop. unfold emul_branch, cpu_set_next_pc, trace.
    destruct (branch_opc instr =? BRANCH_B); [repeat aborts_step|].
    cbn [orb] in Hop. rewrite Hop. repeat aborts_step. }
  destruct (instr_class instr =? INSTR_LDR_STR); [|discriminate].
  intros Hop. unfold emul_ldr_str, cpu_mem_map_write, cpu_wr_reg, trace.
  destruct (ls_opc instr =? LS_LDR8); [repeat aborts_step|].
  cbn [orb] in Hop. rewrite Hop. repeat aborts_step.
Qed.

Lemma emul_insn_not_emulated (instr : Z) (s : cpu) :
  emulated instr = false ->
  exists f, emul_insn instr s = Died f s [] /\ is_decode_error f = true.
Proof.
  unfold emulated, emul_insn.
  destruct (instr_class instr =? INSTR_ARITHMETIC).
  { intros Hin%bool_decide_eq_false.
    rewrite (emul_arithmetic_invalid instr s Hin). eexists. split; reflexivity. }
  destruct (instr_class instr =? INSTR_BRANCH).
  { intros [HB HE]%orb_false_iff. unfold emul_branch, bind, get.
    rewrite HB, HE. eexists. split; reflexivity. }
  destruct (instr_class instr =? INSTR_LDR_STR).
  { intros [HL HS]%orb_false_iff. unfold emul_ldr_str, bind, get.
    rewrite HL, HS. eexists. split; reflexivity. }
  intros _. eexists. split; reflexivity.
Qed.

(** X8: for a fetched word that is not a sentinel, the cycle ends in a
    decode error (invalid class or invalid opcode) exactly when its (class,
    opcode) pair has no case in the switches; the decode error leaves every
    register, flag, the memory and the script untouched and makes no call. *)
Theorem decode_error_iff_not_emulated (s : cpu) (instr : Z) :
  mem_map_read (mem s) (pc s) 32 = (0, instr) ->
  is_sentinel instr = false ->
  (emulated instr = false <->
   exists f s' evs,
     cpu_cycle s = Died f s' evs /\ is_decode_error f = true) /\
  (forall f s' evs,
     cpu_cycle s = Died f s' evs -> is_decode_error f = true ->
     s' = fetch_state s /\ evs = []).
Proof.
  intros Hf Hs. rewrite cpu_cycle_unfold, Hf. cbv zeta.
  change (negb (0 =? 0)) with false. cbv iota.
  unfold is_sentinel in Hs. rewrite Hs.
  destruct (emulated instr) eqn:He.
  - pose proof (emul_insn_emulated instr He (fetch_state s)) as Hab.
    destruct (emul_insn instr (fetch_state s)) as [[] s2 evs2|f s2 evs2].
    + split; [split; [discriminate|intros (f & s' & evs & [=] & _)]|].
      intros f s' evs [=].
    + unfold not_decode_error in Hab. split.
      * split; [discriminate|]. intros (f' & s' & evs & [= <- _ _] & Hd).
        congruence.
      * intros f' s' evs [= <- _ _] Hd. congruence.
  - destruct (emul_insn_not_emulated instr (fetch_state s) He) as (f & -> & Hd).
    split.
    + split; [intros _; now exists f, (fetch_state s), []|reflexivity].
    + intros f' s' evs [= <- <- <-] _. split; reflexivity.
Qed.
(** *** The register file holds 32-bit values *)

Lemma keeps_ret {A} (I : cpu -> Prop) (a : A) : keeps I (ret a).
Proof. now intros s. Qed.

Lemma keeps_emit (I : cpu -> Prop) (e : event) : keeps I (emit e).
Proof. now intros s. Qed.

Lemma keeps_die {A} (I : cpu -> Prop) (f : fatal) : keeps I (@die _ _ A f).
Proof. now intros s. Qed.

Lemma keeps_modify (I : cpu -> Prop) (f : cpu -> cpu) :
  (forall s, I s -> I (f s)) -> keeps I (modify f).
Proof. intros Hf s. apply Hf. Qed.

Lemma keeps_bind {A A'} (I : cpu -> Prop) (m : sim A) (k : A -> sim A') :
  keeps I m -> (forall a, keeps I (k a)) -> keeps I (bind m k).
Proof.
  intros Hm Hk s Hs. unfold bind. specialize (Hm s Hs).
  destruct (m s) as [a s1 evs|f s1 evs]; cbn [final_cpu] in *; [|exact Hm].
  rewrite final_cpu_after. now apply Hk.
Qed.

(** After [get] the continuation may use the invariant of the state read. *)
Lemma keeps_bind_get {A} (I : cpu -> Prop) (k : cpu -> sim A) :
  (forall s0, I s0 -> keeps I (k s0)) -> keeps I (bind get k).
Proof.
  intros Hk s Hs. unfold bind, get. rewrite after_nil. now apply Hk.
Qed.

Lemma keeps_if {A} (I : cpu -> Prop) (b : bool) (m1 m2 : sim A) :
  keeps I m1 -> keeps I m2 -> keeps I (if b then m1 else m2).
Proof. now destruct b. Qed.

Lemma keeps_lua_call (I : cpu -> Prop) (name : string) (args : list Z) :
  (forall L s, I s -> I (set_lua_interp L s)) -> keeps I (lua_call name args).
Proof.
  intros Hl s Hs. unfold lua_call.
  destruct (lua_call_global _ _ _); cbn [final_cpu]; auto.
Qed.

Lemma reg_is_u32 (s : cpu) (r : Z) : Forall is_u32 (regs s) -> is_u32 (reg s r).
Proof.
  intros Hall. unfold reg.
  destruct (regs s !! Z.to_nat r) as [v|] eqn:E; cbn [default].
  - exact (Forall_lookup_1 _ _ _ _ Hall E).
  - unfold is_u32. lia.
Qed.

Lemma arith_op2_is_u32 (instr : Z) (s : cpu) :
  Forall is_u32 (regs s) -> is_u32 (arith_op2 instr s).
Proof.
  intros Hall. unfold arith_op2. destruct (mode_bit instr 9).
  - now apply reg_is_u32.
  - pose proof (instr_imm16_range instr). unfold is_u32. lia.
Qed.

Lemma branch_target_is_u32 (instr : Z) (s : cpu) :
  is_u32 (branch_target instr s).
Proof.
  unfold branch_target. destruct (mode_bit instr 25); [|apply is_u32_u32].
  pose proof (instr_reg_range instr). unfold instr_rb, is_u32. lia.
Qed.

Lemma trace_keeps_wf (l : trace_line) : keeps wf_exec (trace l).
Proof. unfold trace. apply keeps_modify. now intros s. Qed.

Lemma cpu_wr_reg_keeps_wf (r v : Z) : is_u32 v -> keeps wf_exec (cpu_wr_reg r v).
Proof.
  intros Hv. unfold cpu_wr_reg.
  apply keeps_bind_get. intros s0 _.
  apply keeps_bind; [apply trace_keeps_wf|intros []].
  apply keeps_modify. intros s [(Hlen & Hall & Hpc) Hn].
  repeat split; cbn [regs set_regs pc next_pc]; try assumption.
  - now rewrite length_insert.
  - now apply Forall_insert.
  - apply Hpc.
  - apply Hpc.
  - apply Hn.
  - apply Hn.
Qed.

Lemma cpu_set_next_pc_keeps_wf (v : Z) :
  is_u32 v -> keeps wf_exec (cpu_set_next_pc v).
Proof.
  intros Hv. unfold cpu_set_next_pc.
  apply keeps_bind_get. intros s0 _.
  apply keeps_bind; [apply trace_keeps_wf|intros []].
  apply keeps_modify. intros s [Hwf _]. split; assumption.
Qed.

Lemma shl32_is_u32 (x n : Z) : is_u32 (shl32 x n).
Proof. unfold shl32. destruct (n <? 32); apply is_u32_u32. Qed.

Lemma shr32_is_u32 (x n : Z) : is_u32 x -> 0 <= n -> is_u32 (shr32 x n).
Proof.
  intros Hx Hn. unfold shr32.
  destruct (n <? 32); [now apply is_u32_shiftr|apply is_u32_u32].
Qed.

Lemma emul_arithmetic_keeps_wf (instr : Z) : keeps wf_exec (emul_arithmetic instr).
Proof.
  unfold emul_arithmetic. apply keeps_bind_get. intros s0 [(_ & Hall & _) _].
  pose proof (reg_is_u32 s0 (instr_ra instr) Hall) as Hra.
  pose proof (arith_op2_is_u32 instr s0 Hall) as Hop.
  apply keeps_bind.
  - repeat apply keeps_if; try apply keeps_die; apply cpu_wr_reg_keeps_wf;
      first [ apply is_u32_u32 | apply shl32_is_u32
            | apply shr32_is_u32; [exact Hra|apply Hop]
            | now apply is_u32_land_l | now apply is_u32_lxor
            | now apply is_u32_lor ].
  - intros []. apply keeps_if; [|apply keeps_ret].
    apply keeps_modify. now intros s.
Qed.

Lemma emul_branch_keeps_wf (instr : Z) : keeps wf_exec (emul_branch instr).
Proof.
  unfold emul_branch. apply keeps_bind_get. intros s0 _.
  repeat first
    [ apply keeps_if | apply keeps_die | apply keeps_ret
    | apply trace_keeps_wf
    | apply cpu_set_next_pc_keeps_wf; apply branch_target_is_u32
    | apply keeps_bind; [|intros []] ].
Qed.

Lemma cpu_mem_map_write_keeps_wf (addr nr_bits val : Z) :
  keeps wf_exec (cpu_mem_map_write addr nr_bits val).
Proof.
  unfold cpu_mem_map_write. apply keeps_bind_get. intros s0 _.
  apply keeps_bind.
  { apply keeps_if; [|apply keeps_ret]. apply keeps_lua_call. now intros L s. }
  intros []. apply keeps_bind_get. intros s1 _.
  destruct (mem_map_write (mem s1) addr nr_bits val) as [err m'].
  apply keeps_bind; [apply keeps_emit|intros []].
  apply keeps_bind; [|intros []; apply keeps_ret].
  apply keeps_modify. now intros s.
Qed.

Lemma emul_ldr_str_keeps_wf (instr : Z) : keeps wf_exec (emul_ldr_str instr).
Proof.
  unfold emul_ldr_str. apply keeps_bind_get. intros s0 _.
  apply keeps_if; [|apply keeps_if; [|apply keeps_die]].
  - destruct (mem_map_read _ _ _) as [err v].
    apply keeps_if; [apply keeps_die|]. apply cpu_wr_reg_keeps_wf.
    pose proof (is_u32_byte v). unfold is_u32. lia.
  - apply keeps_bind; [apply cpu_mem_map_write_keeps_wf|intros err].
    apply keeps_if; [apply keeps_die|apply keeps_ret].
Qed.

Lemma emul_insn_keeps_wf (instr : Z) : keeps wf_exec (emul_insn instr).
Proof.
  unfold emul_insn.
  repeat first
    [ apply keeps_if | apply keeps_die | apply emul_arithmetic_keeps_wf
    | apply emul_branch_keeps_wf | apply emul_ldr_str_keeps_wf ].
Qed.

Lemma cpu_cycle_keeps_wf (s : cpu) : wf_cpu s -> wf_cpu (final_cpu (cpu_cycle s)).
Proof.
  intros Hwf.
  destruct (mem_map_read (mem s) (pc s) 32) as [err instr] eqn:Hf.
  rewrite (cpu_cycle_final _ _ _ Hf).
  assert (Hs : wf_exec (fetch_state s)).
  { split; [exact Hwf|apply is_u32_u32]. }
  destruct (negb (err =? 0) || is_sentinel instr); [exact Hwf|].
  pose proof (emul_insn_keeps_wf instr (fetch_state s) Hs) as [Hk Hn].
  destruct (emul_insn instr (fetch_state s)) as [[] s2 evs|f s2 evs];
    cbn [final_cpu] in *; [|exact Hk].
  destruct Hk as (Hlen & Hall & _).
  split; [exact Hlen|]. split; [exact Hall|exact Hn].
Qed.

Lemma new_cpu_wf (m : mem_map) (L : lua_State) : wf_cpu (new_cpu m L).
Proof.
  repeat split; cbn; try lia. repeat constructor; unfold is_u32; lia.
Qed.

(** X9: the register file keeps its C type: if the eight registers and the
    PC are 32-bit values before a cycle they are so after it, however it
    ends; hence they are at every instruction boundary reached from reset and
    in the state the driver loop stops in. *)
Theorem registers_stay_32_bit :
  (forall s : cpu, wf_cpu s -> wf_cpu (final_cpu (cpu_cycle s))) /\
  (forall (m : mem_map) (L : lua_State) (n : nat) (s' : cpu),
      cpu_after n (new_cpu m L) = Some s' -> wf_cpu s') /\
  (forall (m : mem_map) (L : lua_State) (fuel : nat) (o : outcome Z),
      run_cycles fuel (new_cpu m L) = Some o -> wf_cpu (final_cpu o)).
Proof.
  split; [exact cpu_cycle_keeps_wf|]. split.
  - intros m L n. generalize (new_cpu_wf m L). generalize (new_cpu m L).
    induction n as [|n IH]; intros s Hwf s' Hn; cbn [cpu_after] in Hn.
    + injection Hn as <-. exact Hwf.
    + pose proof (cpu_cycle_keeps_wf s Hwf) as Hc.
      destruct (cpu_cycle s) as [r s1 evs|f s1 evs]; [|discriminate].
      destruct (s32 r =? 0); [|discriminate]. exact (IH s1 Hc s' Hn).
  - intros m L fuel. generalize (new_cpu_wf m L). generalize (new_cpu m L).
    induction fuel as [|fuel IH]; intros s Hwf o Hr; cbn [run_cycles] in Hr.
    + discriminate.
    + pose proof (cpu_cycle_keeps_wf s Hwf) as Hc.
      destruct (cpu_cycle s) as [r s1 evs|f s1 evs]; cbn [final_cpu] in Hc.
      * destruct (s32 r =? 0).
        -- destruct (run_cycles fuel s1) as [o1|] eqn:E; [|discriminate].
           inversion Hr; subst. rewrite final_cpu_after. exact (IH s1 Hc o1 E).
        -- inversion Hr; subst. exact Hc.
      * inversion Hr; subst. exact Hc.
Qed.

(** *** What single instructions compute *)

Lemma rd_in_bounds (instr : Z) (s : cpu) :
  length (regs s) = 8%nat -> (Z.to_nat (instr_rd instr) < length (regs s))%nat.
Proof.
  intros ->. pose proof (instr_reg_range (Z.shiftr instr 6)).
  unfold instr_rd. lia.
Qed.


(** X11: BIC with a second operand below 32 clears that one bit of register
    A: the destination receives A with bit [op2] cleared and every other bit
    as in A (it is not A and-not op2). *)
Theorem bic_clears_one_bit (instr : Z) (s : cpu) :
  arith_opc instr = ARITH_BIC ->
  wf_cpu s ->
  arith_op2 instr s < 32 ->
  exists s',
    emul_arithmetic instr s = Ran tt s' [] /\
    reg s' (instr_rd instr)
    = Z.clearbit (reg s (instr_ra instr)) (arith_op2 instr s).
Proof.
  intros Hop (Hlen & Hall & _) Hlt.
  pose proof (arith_op2_is_u32 instr s Hall) as [Hge _].
  pose proof (reg_is_u32 s (instr_ra instr) Hall) as Hra.
  unfold emul_arithmetic, bind, get. rewrite Hop. run_sim.
  eexists. split; [reflexivity|].
  unfold reg at 1. cbn [regs set_z set_regs].
  rewrite list_lookup_insert_eq by now apply rd_in_bounds.
  cbn [default]. unfold shl32.
  replace (arith_op2 instr s <? 32) with true by (symmetry; now apply Z.ltb_lt).
  apply land_not_bit_clears; [exact Hra|lia].
Qed.


Lemma lor_high_low (hi lo : Z) :
  0 <= hi -> 0 <= lo < 2 ^ 16 -> Z.lor (hi * 2 ^ 16) lo = hi * 2 ^ 16 + lo.
Proof.
  intros Hhi Hlo. symmetry. rewrite <- Z.lxor_lor.
  - apply Z.add_nocarry_lxor. apply Z.bits_inj'. intros n Hn.
    rewrite Z.land_spec, Z.bits_0.
    destruct (Z.lt_ge_cases n 16) as [Hlt|Hge].
    + rewrite Z.mul_pow2_bits_low by lia. reflexivity.
    + rewrite <- (Z.mod_small lo (2 ^ 16)) by lia.
      rewrite Z.mod_pow2_bits_high by lia. apply andb_false_r.
  - apply Z.bits_inj'. intros n Hn.
    rewrite Z.land_spec, Z.bits_0.
    destruct (Z.lt_ge_cases n 16) as [Hlt|Hge].
    + rewrite Z.mul_pow2_bits_low by lia. reflexivity.
    + rewrite <- (Z.mod_small lo (2 ^ 16)) by lia.
      rewrite Z.mod_pow2_bits_high by lia. apply andb_false_r.
Qed.

(** X13: MOVHI with an immediate followed by OR with an immediate into the
    same register loads a full 32-bit constant: the register ends as
    hi * 2^16 + lo, whatever it held; Z then tells whether the constant is
    zero. *)
Theorem movhi_or_loads_constant (movhi or : Z) (s : cpu) :
  arith_opc movhi = ARITH_MOVHI -> Z.testbit movhi 9 = false ->
  arith_opc or = ARITH_OR -> Z.testbit or 9 = false ->
  instr_rd or = instr_rd movhi -> instr_ra or = instr_rd movhi ->
  length (regs s) = 8%nat ->
  exists s',
    bind (emul_arithmetic movhi) (fun _ => emul_arithmetic or) s
    = Ran tt s' [] /\
    reg s' (instr_rd movhi) = instr_imm16 movhi * 2 ^ 16 + instr_imm16 or /\
    z s' = (instr_imm16 movhi * 2 ^ 16 + instr_imm16 or =? 0).
Proof.
  intros Hm Hmb Ho Hob Hrd Hra Hlen.
  rewrite <- mode_bit_testbit in Hmb, Hob by lia.
  pose proof (instr_imm16_range movhi) as Hhi.
  pose proof (instr_imm16_range or) as Hlo.
  pose proof (rd_in_bounds movhi s Hlen) as Hin.
  assert (Hv : forall l : list Z,
             (Z.to_nat (instr_rd movhi) < length l)%nat ->
             default 0 (<[Z.to_nat (instr_rd movhi) :=
                            Z.lor
                              (default 0
                                 (<[Z.to_nat (instr_rd movhi) :=
                                      u32 (Z.shiftl (instr_imm16 movhi) 16)]>
                                    (regs s) !! Z.to_nat (instr_rd movhi)))
                              (instr_imm16 or)]> l
                        !! Z.to_nat (instr_rd movhi))
             = instr_imm16 movhi * 2 ^ 16 + instr_imm16 or).
  { intros l Hl. rewrite !list_lookup_insert_eq by assumption. cbn [default].
    rewrite Z.shiftl_mul_pow2 by lia.
    rewrite u32_small by (change (2 ^ 32) with (2 ^ 16 * 2 ^ 16); nia).
    apply lor_high_low; lia. }
  unfold bind at 1. unfold emul_arithmetic at 1, bind, get.
  rewrite Hm. unfold arith_op2. rewrite Hmb. run_sim.
  unfold emul_arithmetic, bind, get. rewrite Ho, Hrd, Hra.
  unfold arith_op2. rewrite Hob. run_sim.
  eexists. split; [reflexivity|].
  unfold reg. cbn [regs set_z set_regs z].
  rewrite !Hv by (rewrite length_insert; exact Hin). split; reflexivity.
Qed.

(** *** The 8-bit load *)

(** X14: an 8-bit load whose read succeeds writes the low byte of the value
    read, zero-extended (a value in 0..255), to the destination register,
    makes no call, and leaves PC, the flags and the memory alone; a read that
    fails is fatal with nothing written. *)
Theorem ldr8_zero_extends (instr : Z) (s : cpu) (err v : Z) :
  ls_opc instr = LS_LDR8 ->
  length (regs s) = 8%nat ->
  mem_map_read (mem s) (ldr_str_addr instr s) 8 = (err, v) ->
  (err = 0 ->
   exists s',
     emul_ldr_str instr s = Ran tt s' [] /\
     reg s' (instr_rd instr) = v mod 256 /\
     0 <= reg s' (instr_rd instr) < 256 /\
     pc s' = pc s /\ z s' = z s /\ c s' = c s /\ mem s' = mem s) /\
  (err <> 0 ->
   emul_ldr_str instr s = Died (Read8_failed (ldr_str_addr instr s)) s []).
Proof.
  intros Hop Hlen Hrd. unfold emul_ldr_str, bind, get. rewrite Hop. run_sim.
  rewrite Hrd. split.
  - intros ->. run_sim. eexists. split; [reflexivity|].
    unfold reg. cbn [regs set_regs pc z c mem].
    rewrite list_lookup_insert_eq by now apply rd_in_bounds.
    cbn [default from_option id]. change 0xff with (Z.ones 8).
    rewrite Z.land_ones by lia.
    change (2 ^ 8) with 256.
    pose proof (Z.mod_pos_bound v 256 ltac:(lia)).
    repeat split; try reflexivity; lia.
  - intros Hne. apply Z.eqb_neq in Hne. rewrite Hne. reflexivity.
Qed.

(** *** The calls of a cycle, and its trace *)

Lemma emul_insn_store (instr : Z) (s : cpu) :
  is_str8 instr = true ->
  emul_insn instr s
  = bind (cpu_mem_map_write (ldr_str_addr instr s) 8
            (Z.land (reg s (instr_rb instr)) 0xff))
      (fun err =>
         if negb (err =? 0) then die (Write8_failed (ldr_str_addr instr s))
         else ret tt) s.
Proof.
  unfold is_str8, emul_insn. intros [Hc Hop]%andb_true_iff.
  apply Z.eqb_eq in Hc. rewrite Hc.
  cbn [Z.eqb INSTR_LDR_STR INSTR_BRANCH INSTR_ARITHMETIC Pos.eqb].
  unfold emul_ldr_str. rewrite Hop.
  replace (ls_opc instr =? LS_LDR8) with false
    by (apply Z.eqb_eq in Hop; rewrite Hop; reflexivity).
  unfold bind at 1, get. apply after_nil.
Qed.

(** X15: a cycle makes at most two calls to its collaborators, and of one
    shape only: an optional call of the observer [data_write_hook] with
    (address, 8, byte) followed by an optional [mem_map_write] of the same
    (address, 8, byte); the write never precedes the observer call and
    nothing else is ever called. *)
Theorem cycle_calls_shape (s : cpu) :
  exists addr v err,
    0 <= v < 256 /\
    let call := Ev_lua_call "data_write_hook" [addr; 8; v] in
    let write := Ev_mem_write addr 8 v err in
    In (events_of (cpu_cycle s)) [ []; [call]; [write]; [call; write] ].
Proof.
  destruct (mem_map_read (mem s) (pc s) 32) as [err instr] eqn:Hf.
  rewrite (cpu_cycle_events _ _ _ Hf).
  destruct (negb (err =? 0) || is_sentinel instr).
  { exists 0, 0, 0. split; [lia|]. now left. }
  destruct (is_str8 instr) eqn:Hs.
  2:{ exists 0, 0, 0. split; [lia|]. left. symmetry.
      apply no_events, (emul_insn_quiet instr Hs). }
  rewrite (emul_insn_store instr _ Hs).
  set (s1 := fetch_state s). set (addr := ldr_str_addr instr s1).
  set (v := Z.land (reg s1 (instr_rb instr)) 0xff).
  exists addr, v, (fst (mem_map_write (mem s1) addr 8 v)).
  split; [apply is_u32_byte|]. cbv zeta. unfold bind.
  destruct (lua_global_isnil (lua_interp s1) "data_write_hook") eqn:Hn.
  - rewrite (cpu_mem_map_write_unhooked _ _ _ _ Hn).
    destruct (mem_map_write (mem s1) addr 8 v) as [e m']. cbn [fst].
    right; right; left. now destruct (negb (e =? 0)).
  - rewrite (cpu_mem_map_write_hooked _ _ _ _ Hn). cbv zeta.
    destruct (lua_call_global _ _ _) as [L'|].
    + assert (Hm : mem (set_lua_interp L' s1) = mem s1) by reflexivity.
      destruct (mem_map_write (mem s1) addr 8 v) as [e m']. cbn [fst].
      right; right; right; left. now destruct (negb (e =? 0)).
    + right; left. reflexivity.
Qed.

Lemma grows_ret {A} (P : trace_line -> Prop) (a : A) : grows P (ret a).
Proof. intros s. exists []. now rewrite app_nil_r. Qed.

Lemma grows_get (P : trace_line -> Prop) : grows P get.
Proof. intros s. exists []. now rewrite app_nil_r. Qed.

Lemma grows_emit (P : trace_line -> Prop) (e : event) : grows P (emit e).
Proof. intros s. exists []. now rewrite app_nil_r. Qed.

Lemma grows_die {A} (P : trace_line -> Prop) (f : fatal) :
  grows P (@die _ _ A f).
Proof. intros s. exists []. now rewrite app_nil_r. Qed.

Lemma grows_modify (P : trace_line -> Prop) (f : cpu -> cpu) :
  (forall s, trace_file (f s) = trace_file s) -> grows P (modify f).
Proof.
  intros Hf s. exists []. cbn [modify final_cpu]. now rewrite Hf, app_nil_r.
Qed.

Lemma grows_trace (P : trace_line -> Prop) (l : trace_line) :
  P l -> grows P (trace l).
Proof. intros Hl s. exists [l]. split; [reflexivity|now constructor]. Qed.

Lemma grows_bind {A A'} (P : trace_line -> Prop) (m : sim A) (k : A -> sim A') :
  grows P m -> (forall a, grows P (k a)) -> grows P (bind m k).
Proof.
  intros Hm Hk s. unfold bind. destruct (Hm s) as (t & Ht & HP).
  destruct (m s) as [a s1 evs|f s1 evs]; cbn [final_cpu] in *.
  - rewrite final_cpu_after. destruct (Hk a s1) as (t' & Ht' & HP').
    exists (t ++ t'). rewrite Ht', Ht, app_assoc.
    split; [reflexivity|now apply Forall_app].
  - now exists t.
Qed.

Lemma grows_if {A} (P : trace_line -> Prop) (b : bool) (m1 m2 : sim A) :
  grows P m1 -> grows P m2 -> grows P (if b then m1 else m2).
Proof. now destruct b. Qed.

Lemma grows_lua_call (P : trace_line -> Prop) (name : string) (args : list Z) :
  grows P (lua_call name args).
Proof.
  intros s. exists []. unfold lua_call.
  destruct (lua_call_global _ _ _); now rewrite app_nil_r.
Qed.

Ltac grows_step :=
  first
    [ apply grows_ret | apply grows_get | apply grows_emit | apply grows_die
    | apply grows_lua_call
    | apply grows_trace; discriminate
    | apply grows_modify; intros; reflexivity
    | apply grows_bind; [|intros ?]
    | apply grows_if
    | match goal with
      | |- grows _ (let '(_, _) := ?p in _) => destruct p
      end ].

Lemma emul_insn_grows (instr : Z) : grows not_rule (emul_insn instr).
Proof.
  unfold not_rule, emul_insn, emul_arithmetic, emul_branch, emul_ldr_str,
    cpu_mem_map_write, cpu_wr_reg, cpu_set_next_pc.
  repeat grows_step.
Qed.

(** X16: the lines passed to [trace] only accumulate, and a cycle, however
    it ends, passes exactly one rule to [trace], before any other line of
    that cycle: the rules written to the trace stream count the cycles
    started.  (This is about the calls of [trace] on the stream; the stream
    is buffered, and what has reached the file on disk when the process is
    aborted is outside the model.) *)
Theorem cycle_appends_one_rule (s : cpu) :
  exists t,
    trace_file (final_cpu (cpu_cycle s)) = trace_file s ++ Tr_rule :: t /\
    Forall not_rule t.
Proof.
  destruct (mem_map_read (mem s) (pc s) 32) as [err instr] eqn:Hf.
  rewrite (cpu_cycle_final _ _ _ Hf).
  destruct (negb (err =? 0) || is_sentinel instr).
  { exists []. split; [reflexivity|constructor]. }
  destruct (emul_insn_grows instr (fetch_state s)) as (t & Ht & HP).
  exists t. split; [|exact HP].
  destruct (emul_insn instr (fetch_state s)) as [[] s2 evs|f s2 evs];
    cbn [final_cpu trace_file set_pc] in *; rewrite Ht;
    unfold fetch_state; cbn [trace_file set_next_pc set_trace_file];
    now rewrite <- app_assoc.
Qed.

(** *** The exit of [main] *)


(** *** A failed fetch *)

(** X10: when the memory map refuses the 32-bit read at PC, the cycle is
    aborted by the assertion before anything is decoded: no register, flag or
    memory changes, no call is made, and the driver loop ends there. *)
Theorem failed_fetch_aborts (s : cpu) (err instr : Z) :
  mem_map_read (mem s) (pc s) 32 = (err, instr) ->
  err <> 0 ->
  cpu_cycle s = Died Fetch_assert (fetch_state s) [] /\
  (forall fuel,
      run_cycles (S fuel) s = Some (Died Fetch_assert (fetch_state s) [])) /\
  cpu_after 1 s = None.
Proof.
  intros Hf Hne. apply Z.eqb_neq in Hne.
  assert (Hc : cpu_cycle s = Died Fetch_assert (fetch_state s) []).
  { rewrite cpu_cycle_unfold, Hf. cbv zeta. now rewrite Hne. }
  split; [exact Hc|]. split.
  - intros fuel. cbn [run_cycles]. now rewrite Hc.
  - cbn [cpu_after]. now rewrite Hc.
Qed.


End Properties.

(** ** The debug protocol constants *)

(** C9: the fifteen core commands STOP .. GET_EXEC_STATUS have the codes
    0 .. 14 in the listed order; the seventeen codes of [dbg_cmd] are
    pairwise distinct, so START_TRACE (-2) and SIM_TERM (-1) differ from all
    fifteen; RUNNING is bit 0 and STOPPED_ON_BKPT is bit 1 of the status. *)
Theorem protocol_constants :
  map fst (enum_values dbg_cmd) = core_commands ++ sim_only_commands /\
  map (enum_value dbg_cmd) core_commands
  = map Some [0; 1; 2; 3; 4; 5; 6; 7; 8; 9; 10; 11; 12; 13; 14] /\
  map (enum_value dbg_cmd) sim_only_commands = [Some (-2); Some (-1)] /\
  List.NoDup (map snd (enum_values dbg_cmd)) /\
  exists running bkpt,
    enum_value exec_status "EXEC_STATUS_RUNNING" = Some running /\
    enum_value exec_status "EXEC_STATUS_STOPPED_ON_BKPT" = Some bkpt /\
    (forall i, Z.testbit running i = (i =? 0)) /\
    (forall i, Z.testbit bkpt i = (i =? 1)).
Proof.
  split; [reflexivity|]. split; [reflexivity|]. split; [reflexivity|]. split.
  - cbn. repeat (constructor; [cbn; lia|]). constructor.
  - exists (2 ^ 0), (2 ^ 1). split; [reflexivity|]. split; [reflexivity|].
    split; intros i; rewrite Z.pow2_bits_eqb by lia; apply Z.eqb_sym.
Qed.

(** X18: the four registers of the debug window, REG_CMD, REG_ADDRESS,
    REG_WDATA and REG_RDATA, are numbered 0, 1, 2, 3 in this order: four
    consecutive slots starting at zero. *)
Theorem debug_window_registers :
  enum_values dbg_reg
  = [("REG_CMD", 0); ("REG_ADDRESS", 1); ("REG_WDATA", 2); ("REG_RDATA", 3)] /\
  map snd (enum_values dbg_reg) = seqZ 0 4 /\
  forall name v, enum_value dbg_reg name = Some v -> 0 <= v < 4.
Proof.
  split; [reflexivity|]. split; [reflexivity|].
  intros name v. unfold enum_value. cbn [enum_values dbg_reg enum_values_from
    default from_option id assoc Z.add Pos.add Pos.succ].
  repeat (destruct (String.eqb name _); [intros [= <-]; lia|]).
  discriminate.
Qed.

(** ** The model at work *)

#[local] Existing Instances masking_shifts spec_address_space test_script.

(** The end-to-end scenario: success, R0 = 15, the byte at 0x100 is 15, the
    observer saw (0x100, 8, 15) once and the success callback was called. *)
Example scenario_runs :
  match main 10 (ram_with scenario_program) both_hooks with
  | Some (Ran status s evs) =>
      status = EXIT_SUCCESS /\ reg s 0 = 15 /\
      mem_map_read (mem s) 0x100 8 = (0, 15) /\
      seen (lua_interp s)
      = [("data_write_hook", [0x100; 8; 15]); ("validate_result", [])]
  | _ => False
  end.
Proof. vm_compute. repeat split. Qed.

(** *** The register-indirect branch *)

(** C1 on the code: after R3 := 0x100 the word at PC is B with bit 25 set
    and register field 3; the cycle leaves 3, the number of the register, in
    PC, and not the 0x100 the register holds. *)
Theorem indirect_branch_takes_register_number :
  (fun s => (mem_map_read (mem s) (pc s) 32, reg s 3))
    <$> cpu_after 1 indirect_branch_start
  = Some ((0, 0x52000003), 0x100) /\
  instr_class 0x52000003 = INSTR_BRANCH /\
  branch_opc 0x52000003 = BRANCH_B /\
  Z.testbit 0x52000003 25 = true /\
  instr_rb 0x52000003 = 3 /\
  pc <$> cpu_after 2 indirect_branch_start = Some 3.
Proof. repeat apply conj; vm_compute; reflexivity. Qed.

(** *** ADDC is not emulated *)

(** C2 as stated fails: ADDC R0, R1, #5 is an arithmetic instruction with a
    named opcode, and its cycle is the fatal invalid-opcode exit. *)
Lemma addc_is_fatal :
  mem_map_read (mem addc_start) (pc addc_start) 32 = (0, 0x04001408) /\
  instr_class 0x04001408 = INSTR_ARITHMETIC /\
  arith_opc 0x04001408 = ARITH_ADDC /\
  In (arith_opc 0x04001408) named_arith_opcodes /\
  match cpu_cycle addc_start with
  | Died f s' evs =>
      f = Invalid_arith_opcode ARITH_ADDC 0x04001408 /\
      evs = [] /\ regs s' = regs addc_start
  | Ran _ _ _ => False
  end.
Proof.
  split; [vm_compute; reflexivity|]. split; [reflexivity|].
  split; [reflexivity|]. split; [right; left; reflexivity|].
  vm_compute. repeat apply conj; reflexivity.
Qed.

Lemma arithmetic_opcodes_emulated_witness :
  mem_map_read (mem scenario_start) (pc scenario_start) 32 = (0, 0x00002848) /\
  instr_class 0x00002848 = INSTR_ARITHMETIC /\
  (In (arith_opc 0x00002848) emulated_arith_opcodes ->
   exists v s',
     cpu_cycle scenario_start = Ran SIM_CONTINUE s' [] /\
     v = arith_result 0x00002848 scenario_start /\
     regs s' = <[Z.to_nat (instr_rd 0x00002848) := v]> (regs scenario_start) /\
     (length (regs scenario_start) = 8%nat -> reg s' (instr_rd 0x00002848) = v)) /\
  (~ In (arith_opc 0x00002848) emulated_arith_opcodes ->
   exists s',
     cpu_cycle scenario_start
     = Died (Invalid_arith_opcode (arith_opc 0x00002848) 0x00002848) s' [] /\
     regs s' = regs scenario_start) /\
  (forall opc,
     In opc emulated_arith_opcodes <->
     In opc named_arith_opcodes /\ opc <> ARITH_ADDC /\ opc <> ARITH_SUBC).
Proof.
  split; [vm_compute; reflexivity|]. split; [reflexivity|].
  apply (arithmetic_opcodes_emulated scenario_start 0x00002848);
    [vm_compute; reflexivity|reflexivity].
Defined.

(** On the scenario the first cycle, ADD R1, R1, #10, writes 10 to R1 and
    leaves the other registers at zero. *)
Example add_writes_the_sum :
  arith_result 0x00002848 scenario_start = 10 /\
  regs (final_cpu (cpu_cycle scenario_start)) = [0; 10; 0; 0; 0; 0; 0; 0].
Proof. split; vm_compute; reflexivity. Qed.

(** *** The sentinel *)

Lemma sentinel_halts_witness :
  mem_map_read (mem scenario_at_sentinel) (pc scenario_at_sentinel) 32
  = (0, SIM_SUCCESS) /\
  (SIM_SUCCESS = SIM_SUCCESS \/ SIM_SUCCESS = SIM_FAIL) /\
  exists s',
    cpu_cycle scenario_at_sentinel = Ran SIM_SUCCESS s' [] /\
    pc s' = pc scenario_at_sentinel /\ regs s' = regs scenario_at_sentinel /\
    z s' = z scenario_at_sentinel /\ c s' = c scenario_at_sentinel /\
    mem s' = mem scenario_at_sentinel /\
    lua_interp s' = lua_interp scenario_at_sentinel /\
    next_pc s' = u32 (pc scenario_at_sentinel + 4) /\
    (forall fuel,
        run_cycles (S fuel) scenario_at_sentinel
        = Some (Ran (s32 SIM_SUCCESS) s' [])) /\
    u32 (s32 SIM_SUCCESS) = SIM_SUCCESS /\ s32 SIM_SUCCESS <> 0.
Proof.
  split; [vm_compute; reflexivity|]. split; [left; reflexivity|].
  apply (sentinel_halts scenario_at_sentinel SIM_SUCCESS);
    [vm_compute; reflexivity|left; reflexivity].
Defined.

(** *** Flags *)

Lemma arithmetic_flag_law_witness :
  mem_map_read (mem scenario_start) (pc scenario_start) 32 = (0, 0x00002848) /\
  instr_class 0x00002848 = INSTR_ARITHMETIC /\
  cpu_cycle scenario_start
  = Ran SIM_CONTINUE (final_cpu (cpu_cycle scenario_start)) [] /\
  (arith_opc 0x00002848 <> ARITH_MOVHI ->
   z (final_cpu (cpu_cycle scenario_start))
   = (reg (final_cpu (cpu_cycle scenario_start)) (instr_rd 0x00002848) =? 0)) /\
  (arith_opc 0x00002848 = ARITH_MOVHI ->
   z (final_cpu (cpu_cycle scenario_start)) = z scenario_start /\
   c (final_cpu (cpu_cycle scenario_start)) = c scenario_start).
Proof.
  assert (Hrun : cpu_cycle scenario_start
                 = Ran SIM_CONTINUE (final_cpu (cpu_cycle scenario_start)) [])
    by (apply ran_intro; vm_compute; reflexivity).
  split; [vm_compute; reflexivity|]. split; [reflexivity|].
  split; [exact Hrun|].
  apply (arithmetic_flag_law scenario_start
           (final_cpu (cpu_cycle scenario_start)) 0x00002848 SIM_CONTINUE []);
    [vm_compute; reflexivity|reflexivity|exact Hrun].
Defined.

Lemma carry_flag_never_written_witness :
  cpu_after 4 scenario_start = Some scenario_at_sentinel_reached /\
  c scenario_at_sentinel_reached = false.
Proof.
  assert (Hrun : cpu_after 4 scenario_start = Some scenario_at_sentinel_reached)
    by (apply some_default; vm_compute; reflexivity).
  split; [exact Hrun|].
  apply (proj1 (proj2 (@carry_flag_never_written
                         masking_shifts spec_address_space test_script))
           (ram_with scenario_program) both_hooks 4%nat).
  exact Hrun.
Defined.

(** *** Branch and address arithmetic *)

Lemma branch_relative_target_witness :
  Z.testbit 0x50FFFFFF 25 = false /\
  (branch_opc 0x50FFFFFF = BRANCH_B \/
   (branch_opc 0x50FFFFFF = BRANCH_BEQ /\ z idle_at_0x20 = true)) /\
  exists s',
    emul_branch 0x50FFFFFF idle_at_0x20 = Ran tt s' [] /\
    next_pc s'
    = u32 (pc idle_at_0x20 + Z.shiftl (sign_extend 24 (instr_imm24 0x50FFFFFF)) 2) /\
    (instr_imm24 0x50FFFFFF = 0xFFFFFF ->
     next_pc s' = u32 (pc idle_at_0x20 - 4) /\
     (4 <= pc idle_at_0x20 < 2 ^ 32 -> next_pc s' = pc idle_at_0x20 - 4)).
Proof.
  split; [reflexivity|]. split; [left; reflexivity|].
  apply (branch_relative_target 0x50FFFFFF idle_at_0x20);
    [reflexivity|left; reflexivity].
Defined.

(** The backward branch at 0x20 goes to 0x1c. *)
Example branch_back_one_word :
  next_pc (final_cpu (emul_branch 0x50FFFFFF idle_at_0x20)) = 0x1c.
Proof. vm_compute. reflexivity. Qed.

Lemma ldr_str8_effective_address_witness :
  (ls_opc 0x98000010 = LS_LDR8 \/ ls_opc 0x98000010 = LS_STR8) /\
  let addr :=
    if Z.testbit 0x98000010 9
    then u32 (pc scenario_at_store + sign_extend 16 (instr_imm16 0x98000010))
    else u32 (reg scenario_at_store (instr_ra 0x98000010) + instr_imm16 0x98000010) in
  0 <= instr_imm16 0x98000010 < 2 ^ 16 /\
  (ls_opc 0x98000010 = LS_LDR8 ->
   emul_ldr_str 0x98000010 scenario_at_store
   = let '(err, v) := mem_map_read (mem scenario_at_store) addr 8 in
     if negb (err =? 0) then Died (Read8_failed addr) scenario_at_store []
     else cpu_wr_reg (instr_rd 0x98000010) (Z.land v 0xff) scenario_at_store) /\
  (ls_opc 0x98000010 = LS_STR8 ->
   emul_ldr_str 0x98000010 scenario_at_store
   = bind (cpu_mem_map_write addr 8
             (Z.land (reg scenario_at_store (instr_rb 0x98000010)) 0xff))
       (fun err => if negb (err =? 0) then die (Write8_failed addr) else ret tt)
       scenario_at_store).
Proof.
  split; [right; reflexivity|].
  apply (ldr_str8_effective_address 0x98000010 scenario_at_store).
  right; reflexivity.
Defined.

(** A base-relative immediate with its top bit set is added as 0xffff, a
    PC-relative one as -1. *)
Example immediate_asymmetry :
  ldr_str_addr 0x9bfffc10 scenario_at_store = 0x100 + 0xffff /\
  ldr_str_addr 0x9bfffe10 scenario_at_store = 12 - 1.
Proof. split; vm_compute; reflexivity. Qed.

(** *** The write observer *)

(** C7 as stated fails: the store to 0x10000 is refused by the memory map
    (nothing is committed, the memory is what it was and the cycle is fatal),
    yet the observer has been called with (0x10000, 8, 0). *)
Lemma observer_called_for_refused_write :
  match run_cycles 3 unmapped_store_start with
  | Some (Died f s' evs) =>
      f = Write8_failed 0x10000 /\
      evs = [ Ev_lua_call "data_write_hook" [0x10000; 8; 0];
              Ev_mem_write 0x10000 8 0 UnmappedAddress ] /\
      mem s' = mem unmapped_store_start /\
      seen (lua_interp s') = [("data_write_hook", [0x10000; 8; 0])]
  | _ => False
  end.
Proof. vm_compute. repeat apply conj; reflexivity. Qed.

Lemma store_observer_precedes_write_witness :
  ls_opc 0x98000010 = LS_STR8 /\
  lua_global_isnil (lua_interp scenario_at_store) "data_write_hook" = false /\
  let addr := ldr_str_addr 0x98000010 scenario_at_store in
  let v := Z.land (reg scenario_at_store (instr_rb 0x98000010)) 0xff in
  let call := Ev_lua_call "data_write_hook" [addr; 8; v] in
  emul_ldr_str 0x98000010 scenario_at_store
  = match
      lua_call_global (lua_interp scenario_at_store) "data_write_hook" [addr; 8; v]
    with
    | None => Died (Lua_no_return "data_write_hook") scenario_at_store [call]
    | Some L' =>
        let '(err, m') := mem_map_write (mem scenario_at_store) addr 8 v in
        let s' := set_mem m' (set_lua_interp L' scenario_at_store) in
        if err =? 0 then Ran tt s' [call; Ev_mem_write addr 8 v err]
        else Died (Write8_failed addr) s' [call; Ev_mem_write addr 8 v err]
    end.
Proof.
  split; [reflexivity|]. split; [reflexivity|].
  apply (store_observer_precedes_write 0x98000010 scenario_at_store);
    reflexivity.
Defined.

(** *** The driver *)

Lemma success_callback_iff_success_witness :
  run_cycles 10 (new_cpu (ram_with scenario_program) both_hooks)
  = Some (Ran (-1) scenario_stopped scenario_events) /\
  lua_global_isnil (lua_interp scenario_stopped) "validate_result" = false /\
  exists o,
    main 10 (ram_with scenario_program) both_hooks = Some o /\
    (u32 (-1) = SIM_SUCCESS \/ u32 (-1) = SIM_FAIL) /\
    (calls_of "validate_result" (events_of o) = 1%nat <-> u32 (-1) = SIM_SUCCESS) /\
    (u32 (-1) = SIM_FAIL ->
     calls_of "validate_result" (events_of o) = 0%nat /\
     o = Ran EXIT_FAILURE scenario_stopped
           (Ev_stdout ("Oldland CPU simulator" ++ nl)
              :: scenario_events ++ [Ev_stdout ("[FAIL]" ++ nl)])).
Proof.
  assert (Hrun : run_cycles 10 (new_cpu (ram_with scenario_program) both_hooks)
                 = Some (Ran (-1) scenario_stopped scenario_events))
    by (apply (some_ran_intro _ scenario_start); vm_compute; reflexivity).
  split; [exact Hrun|]. split; [vm_compute; reflexivity|].
  apply (@success_callback_iff_success masking_shifts spec_address_space
           test_script 10%nat (ram_with scenario_program) both_hooks
           (-1) scenario_stopped scenario_events);
    [exact Hrun|vm_compute; reflexivity].
Defined.

(** A program that ends on the FAIL sentinel: the failure line, the failure
    status, and no call of the success callback. *)
Example fail_sentinel_reports_failure :
  match main 5 (ram_with [0xfffffffe]) both_hooks with
  | Some (Ran status s evs) =>
      status = EXIT_FAILURE /\
      evs = [ Ev_stdout ("Oldland CPU simulator" ++ nl);
              Ev_stdout ("[FAIL]" ++ nl) ] /\
      seen (lua_interp s) = []
  | _ => False
  end.
Proof. vm_compute. repeat apply conj; reflexivity. Qed.

(** *** The further properties on the scenario *)

Lemma scenario_start_wf : wf_cpu scenario_start.
Proof. apply new_cpu_wf. Qed.

Lemma scenario_at_store_wf : wf_cpu scenario_at_store.
Proof.
  split; [reflexivity|]. split; [|unfold is_u32; cbn; lia].
  repeat constructor; unfold is_u32; lia.
Qed.

Lemma fields_of_word_witness :
  0 <= 0 < 4 /\ 0 <= 0 < 16 /\ 0 <= 10 < 2 ^ 16 /\ 0 <= 0 < 2 /\
  0 <= 1 < 8 /\ 0 <= 1 < 8 /\ 0 <= 0 < 8 /\
  let w := word_of_fields 0 0 10 0 1 1 0 in
  instr_class w = 0 /\ arith_opc w = 0 /\ instr_imm16 w = 10 /\
  mode_bit w 9 = (0 =? 1) /\
  instr_rd w = 1 /\ instr_ra w = 1 /\ instr_rb w = 0 /\ is_u32 w.
Proof.
  repeat (split; [lia|]).
  apply (fields_of_word 0 0 10 0 1 1 0); lia.
Defined.


Lemma z_written_by_arithmetic_only_witness :
  mem_map_read (mem scenario_at_store) (pc scenario_at_store) 32
  = (0, 0x98000010) /\
  (0 <> 0 \/ instr_class 0x98000010 <> INSTR_ARITHMETIC) /\
  z (final_cpu (cpu_cycle scenario_at_store)) = z scenario_at_store.
Proof.
  split; [vm_compute; reflexivity|]. split; [right; discriminate|].
  apply (z_written_by_arithmetic_only scenario_at_store 0 0x98000010);
    [vm_compute; reflexivity|right; discriminate].
Defined.

(** The failed fetch of [pc_outside_ram] hands back the word 0, which is of
    the arithmetic class; Z is left alone all the same. *)
Example failed_fetch_keeps_z :
  mem_map_read (mem pc_outside_ram) (pc pc_outside_ram) 32
  = (UnmappedAddress, 0) /\
  instr_class 0 = INSTR_ARITHMETIC /\
  z (final_cpu (cpu_cycle pc_outside_ram)) = z pc_outside_ram.
Proof. repeat apply conj; vm_compute; reflexivity. Qed.

Lemma only_store_reaches_memory_witness :
  mem_map_read (mem scenario_start) (pc scenario_start) 32 = (0, 0x00002848) /\
  is_str8 0x00002848 = false /\
  mem (final_cpu (cpu_cycle scenario_start)) = mem scenario_start /\
  lua_interp (final_cpu (cpu_cycle scenario_start)) = lua_interp scenario_start /\
  events_of (cpu_cycle scenario_start) = [].
Proof.
  split; [vm_compute; reflexivity|]. split; [reflexivity|].
  apply (only_store_reaches_memory scenario_start 0 0x00002848);
    [vm_compute; reflexivity|reflexivity].
Defined.

Lemma cycle_writes_destination_only_witness :
  mem_map_read (mem scenario_start) (pc scenario_start) 32 = (0, 0x00002848) /\
  (forall j : nat,
      j <> Z.to_nat (instr_rd 0x00002848) ->
      regs (final_cpu (cpu_cycle scenario_start)) !! j
      = regs scenario_start !! j) /\
  length (regs (final_cpu (cpu_cycle scenario_start)))
  = length (regs scenario_start) /\
  (instr_class 0x00002848 = INSTR_BRANCH \/ is_str8 0x00002848 = true ->
   regs (final_cpu (cpu_cycle scenario_start)) = regs scenario_start).
Proof.
  split; [vm_compute; reflexivity|].
  apply (cycle_writes_destination_only scenario_start 0 0x00002848).
  vm_compute; reflexivity.
Defined.

Lemma pc_update_law_witness :
  mem_map_read (mem scenario_start) (pc scenario_start) 32 = (0, 0x00002848) /\
  cpu_cycle scenario_start
  = Ran SIM_CONTINUE (final_cpu (cpu_cycle scenario_start)) [] /\
  pc (final_cpu (cpu_cycle scenario_start))
  = if branch_taken 0x00002848 scenario_start
    then branch_target 0x00002848 scenario_start
    else u32 (pc scenario_start + 4).
Proof.
  assert (Hrun : cpu_cycle scenario_start
                 = Ran SIM_CONTINUE (final_cpu (cpu_cycle scenario_start)) [])
    by (apply ran_intro; vm_compute; reflexivity).
  split; [vm_compute; reflexivity|]. split; [exact Hrun|].
  apply (pc_update_law scenario_start (final_cpu (cpu_cycle scenario_start))
           0 0x00002848 []);
    [vm_compute; reflexivity|exact Hrun].
Defined.

Lemma pc_stays_word_aligned_witness :
  mem_map_read (mem scenario_start) (pc scenario_start) 32 = (0, 0x00002848) /\
  cpu_cycle scenario_start
  = Ran SIM_CONTINUE (final_cpu (cpu_cycle scenario_start)) [] /\
  pc scenario_start mod 4 = 0 /\
  branch_taken 0x00002848 scenario_start && Z.testbit 0x00002848 25 = false /\
  pc (final_cpu (cpu_cycle scenario_start)) mod 4 = 0.
Proof.
  assert (Hrun : cpu_cycle scenario_start
                 = Ran SIM_CONTINUE (final_cpu (cpu_cycle scenario_start)) [])
    by (apply ran_intro; vm_compute; reflexivity).
  split; [vm_compute; reflexivity|]. split; [exact Hrun|].
  split; [reflexivity|]. split; [reflexivity|].
  apply (pc_stays_word_aligned scenario_start
           (final_cpu (cpu_cycle scenario_start)) 0 0x00002848 []);
    [vm_compute; reflexivity|exact Hrun|reflexivity|reflexivity].
Defined.

Lemma decode_error_iff_not_emulated_witness :
  mem_map_read (mem addc_start) (pc addc_start) 32 = (0, 0x04001408) /\
  is_sentinel 0x04001408 = false /\
  (emulated 0x04001408 = false <->
   exists f s' evs,
     cpu_cycle addc_start = Died f s' evs /\ is_decode_error f = true) /\
  (forall f s' evs,
     cpu_cycle addc_start = Died f s' evs -> is_decode_error f = true ->
     s' = fetch_state addc_start /\ evs = []).
Proof.
  split; [vm_compute; reflexivity|]. split; [reflexivity|].
  apply (decode_error_iff_not_emulated addc_start 0x04001408);
    [vm_compute; reflexivity|reflexivity].
Defined.

Lemma registers_stay_32_bit_witness :
  cpu_after 4 scenario_start = Some scenario_at_sentinel_reached /\
  wf_cpu scenario_at_sentinel_reached.
Proof.
  assert (Hrun : cpu_after 4 scenario_start = Some scenario_at_sentinel_reached)
    by (apply some_default; vm_compute; reflexivity).
  split; [exact Hrun|].
  apply (proj1 (proj2 (@registers_stay_32_bit
                         masking_shifts spec_address_space test_script))
           (ram_with scenario_program) both_hooks 4%nat).
  exact Hrun.
Defined.

Lemma failed_fetch_aborts_witness :
  mem_map_read (mem pc_outside_ram) (pc pc_outside_ram) 32
  = (UnmappedAddress, 0) /\
  UnmappedAddress <> 0 /\
  cpu_cycle pc_outside_ram = Died Fetch_assert (fetch_state pc_outside_ram) [] /\
  (forall fuel,
      run_cycles (S fuel) pc_outside_ram
      = Some (Died Fetch_assert (fetch_state pc_outside_ram) [])) /\
  cpu_after 1 pc_outside_ram = None.
Proof.
  split; [vm_compute; reflexivity|]. split; [discriminate|].
  apply (failed_fetch_aborts pc_outside_ram UnmappedAddress 0);
    [vm_compute; reflexivity|discriminate].
Defined.

Lemma bic_clears_one_bit_witness :
  arith_opc 0x20000C08 = ARITH_BIC /\
  wf_cpu scenario_at_store /\
  arith_op2 0x20000C08 scenario_at_store < 32 /\
  exists s',
    emul_arithmetic 0x20000C08 scenario_at_store = Ran tt s' [] /\
    reg s' (instr_rd 0x20000C08)
    = Z.clearbit (reg scenario_at_store (instr_ra 0x20000C08))
        (arith_op2 0x20000C08 scenario_at_store).
Proof.
  split; [reflexivity|]. split; [exact scenario_at_store_wf|].
  split; [vm_compute; reflexivity|].
  apply (bic_clears_one_bit 0x20000C08 scenario_at_store);
    [reflexivity|exact scenario_at_store_wf|vm_compute; reflexivity].
Defined.

(** BIC R0, R1, #3 with R1 = 10 (binary 1010) leaves 2 in R0. *)
Example bic_of_ten :
  reg (final_cpu (emul_arithmetic 0x20000C08 scenario_at_store)) 0 = 2.
Proof. vm_compute. reflexivity. Qed.


Lemma movhi_or_loads_constant_witness :
  arith_opc 0x28000480 = ARITH_MOVHI /\ Z.testbit 0x28000480 9 = false /\
  arith_opc 0x2400D090 = ARITH_OR /\ Z.testbit 0x2400D090 9 = false /\
  instr_rd 0x2400D090 = instr_rd 0x28000480 /\
  instr_ra 0x2400D090 = instr_rd 0x28000480 /\
  length (regs scenario_at_store) = 8%nat /\
  exists s',
    bind (emul_arithmetic 0x28000480) (fun _ => emul_arithmetic 0x2400D090)
      scenario_at_store
    = Ran tt s' [] /\
    reg s' (instr_rd 0x28000480)
    = instr_imm16 0x28000480 * 2 ^ 16 + instr_imm16 0x2400D090 /\
    z s' = (instr_imm16 0x28000480 * 2 ^ 16 + instr_imm16 0x2400D090 =? 0).
Proof.
  repeat (split; [reflexivity|]).
  apply (movhi_or_loads_constant 0x28000480 0x2400D090 scenario_at_store);
    reflexivity.
Defined.

Lemma ldr8_zero_extends_witness :
  ls_opc 0x880000D0 = LS_LDR8 /\
  length (regs scenario_at_store) = 8%nat /\
  mem_map_read (mem scenario_at_store)
    (ldr_str_addr 0x880000D0 scenario_at_store) 8 = (0, 0) /\
  (0 = 0 ->
   exists s',
     emul_ldr_str 0x880000D0 scenario_at_store = Ran tt s' [] /\
     reg s' (instr_rd 0x880000D0) = 0 mod 256 /\
     0 <= reg s' (instr_rd 0x880000D0) < 256 /\
     pc s' = pc scenario_at_store /\ z s' = z scenario_at_store /\
     c s' = c scenario_at_store /\ mem s' = mem scenario_at_store) /\
  (0 <> 0 ->
   emul_ldr_str 0x880000D0 scenario_at_store
   = Died (Read8_failed (ldr_str_addr 0x880000D0 scenario_at_store))
       scenario_at_store []).
Proof.
  split; [reflexivity|]. split; [reflexivity|].
  split; [vm_compute; reflexivity|].
  apply (ldr8_zero_extends 0x880000D0 scenario_at_store 0 0);
    [reflexivity|reflexivity|vm_compute; reflexivity].
Defined.

